(** * PortalManager: a shallow embedding of [index.js]

    The development follows the source file top to bottom.  The host
    environment (the DOM tree, the measurements of the layout engine and the
    [Signal] objects) is modelled as explicit state; every method of
    [PortalManager] is a function in a small state-and-exception monad.

    Numbers that hold pixel measurements are exact rationals ([Q]): the
    rounding of floating-point arithmetic is not modelled.  The z-index is
    an integer ([Z]).  [document.head] and [document.body] are read through
    their getters each time the code uses them. *)

From Stdlib Require Import Ascii String QArith Lqa.
From stdpp Require Import gmap strings list.

Local Open Scope string_scope.

(** ** Numbers *)

(** JavaScript's [a < b] on numbers. *)
Definition Qltb (a b : Q) : bool :=
  match (a ?= b)%Q with
  | Lt => true
  | _ => false
  end.

(** ** Placement geometry ([positionElement], the [switch] and the four
    viewport adjustments) *)

Module Placement.

(** What [getBoundingClientRect()] returns: a [DOMRect], read through its
    six attributes. *)
Record Rect := mkRect {
  left : Q;
  top : Q;
  width : Q;
  height : Q;
  right : Q;
  bottom : Q
}.

(** A [DOMRect] with non-negative dimensions, given by its origin and size. *)
Definition domRect (l t w h : Q) : Rect :=
  mkRect l t w h (l + w)%Q (t + h)%Q.

(** [element.offsetWidth] and [element.offsetHeight]. *)
Record Size := mkSize {
  offsetWidth : Q;
  offsetHeight : Q
}.

(** [window.innerWidth] and [window.innerHeight]. *)
Record Viewport := mkViewport {
  innerWidth : Q;
  innerHeight : Q
}.

Section Switch.
Variables (rect : Rect) (el : Size) (margin : Q).

(** The [switch (placement)] statement: the pair
    [(translateX, translateY)] once the statement has run.  [case] labels
    are compared with [===], in the order of the source. *)
Definition idealPosition (placement : string) : Q * Q :=
  if String.eqb placement "top" then
    (left rect + (width rect / 2) - (offsetWidth el / 2),
     top rect - offsetHeight el - margin)%Q
  else if String.eqb placement "bottom" then
    (left rect + (width rect / 2) - (offsetWidth el / 2),
     bottom rect + margin)%Q
  else if String.eqb placement "left" then
    (left rect - offsetWidth el - margin,
     top rect + (height rect / 2) - (offsetHeight el / 2))%Q
  else if String.eqb placement "right" then
    (right rect + margin,
     top rect + (height rect / 2) - (offsetHeight el / 2))%Q
  else if String.eqb placement "bottom-left" then
    (left rect, bottom rect + margin)%Q
  else if String.eqb placement "bottom-right" then
    (right rect - offsetWidth el, bottom rect + margin)%Q
  else if String.eqb placement "top-left" then
    (left rect, top rect - offsetHeight el - margin)%Q
  else if String.eqb placement "top-right" then
    (right rect - offsetWidth el, top rect - offsetHeight el - margin)%Q
  else
    (left rect, bottom rect + margin)%Q.
End Switch.

(** The four [if] statements after the [switch], in source order; each one
    reads and overwrites the mutable variable it names. *)
Definition clampToViewport (el : Size) (vp : Viewport) (ideal : Q * Q) : Q * Q :=
  let translateX := fst ideal in
  let translateY := snd ideal in
  let translateX := if Qltb translateX 0 then 0%Q else translateX in
  let translateY := if Qltb translateY 0 then 0%Q else translateY in
  let translateX :=
    if Qltb (innerWidth vp) (translateX + offsetWidth el)
    then (innerWidth vp - offsetWidth el)%Q else translateX in
  let translateY :=
    if Qltb (innerHeight vp) (translateY + offsetHeight el)
    then (innerHeight vp - offsetHeight el)%Q else translateY in
  (translateX, translateY).

(** The coordinates that end up in the [translate(...)] transform. *)
Definition translation (placement : string) (rect : Rect) (el : Size)
    (margin : Q) (vp : Viewport) : Q * Q :=
  clampToViewport el vp (idealPosition rect el margin placement).

(** *** The specification's reading of the same computation *)

(** The eight enumerated placement modes. *)
Inductive Mode :=
  | Top | Bottom | Left | Right
  | TopLeft | TopRight | BottomLeft | BottomRight.

Definition modeName (m : Mode) : string :=
  match m with
  | Top => "top"
  | Bottom => "bottom"
  | Left => "left"
  | Right => "right"
  | TopLeft => "top-left"
  | TopRight => "top-right"
  | BottomLeft => "bottom-left"
  | BottomRight => "bottom-right"
  end.

Definition modeNames : list string :=
  map modeName [Top; Bottom; Left; Right; TopLeft; TopRight; BottomLeft; BottomRight].

(** Centre alignment: the anchor's midpoint minus half the element's
    corresponding dimension. *)
Definition centred (start extent elExtent : Q) : Q :=
  (start + extent / 2 - elExtent / 2)%Q.

(** The placement table of the specification, one row per mode. *)
Definition tableX (m : Mode) (anchor : Rect) (el : Size) (margin : Q) : Q :=
  match m with
  | Top | Bottom => centred (left anchor) (width anchor) (offsetWidth el)
  | Left => (left anchor - offsetWidth el - margin)%Q
  | Right => (right anchor + margin)%Q
  | TopLeft | BottomLeft => left anchor
  | TopRight | BottomRight => (right anchor - offsetWidth el)%Q
  end.

Definition tableY (m : Mode) (anchor : Rect) (el : Size) (margin : Q) : Q :=
  match m with
  | Top | TopLeft | TopRight => (top anchor - offsetHeight el - margin)%Q
  | Bottom | BottomLeft | BottomRight => (bottom anchor + margin)%Q
  | Left | Right => centred (top anchor) (height anchor) (offsetHeight el)
  end.

(** Clamping of one axis: first against zero, then against the far edge. *)
Definition clampAxis (v extent limit : Q) : Q :=
  let v := if Qltb v 0 then 0%Q else v in
  if Qltb limit (v + extent) then (limit - extent)%Q else v.

(** The four clamping rules of the specification, applied one after the
    other in the order the specification lists them. *)
Inductive ClampRule := ZeroX | ZeroY | FarX | FarY.

Definition applyRule (el : Size) (vp : Viewport) (xy : Q * Q) (r : ClampRule)
    : Q * Q :=
  let '(x, y) := xy in
  match r with
  | ZeroX => if Qltb x 0 then (0%Q, y) else xy
  | ZeroY => if Qltb y 0 then (x, 0%Q) else xy
  | FarX =>
      if Qltb (innerWidth vp) (x + offsetWidth el)
      then ((innerWidth vp - offsetWidth el)%Q, y) else xy
  | FarY =>
      if Qltb (innerHeight vp) (y + offsetHeight el)
      then (x, (innerHeight vp - offsetHeight el)%Q) else xy
  end.

Definition clampRules : list ClampRule := [ZeroX; ZeroY; FarX; FarY].

(** Equality of coordinate pairs as numbers. *)
Definition sameCoordinates (a b : Q * Q) : Prop :=
  (fst a == fst b)%Q /\ (snd a == snd b)%Q.

End Placement.

(** ** The host document *)

Module Dom.

Definition node := nat.

Inductive DOMException :=
  | HierarchyRequestError
  | NotFoundError.

Inductive Error :=
  | DOMError (e : DOMException)
  | TypeError.

(** The text of the [<style>] element, [#portal-${id} { z-index: ${zIndex}
    !important; }], kept as the selector and the declaration it is built
    from. *)
Record CSSRule := mkRule {
  selector : string;
  zIndexDecl : Z;
  important : bool
}.

(** The inline style declarations the manager reads or writes. *)
Record InlineStyle := mkStyle {
  position : option string;
  styleTop : option string;
  styleLeft : option string;
  styleWidth : option string;
  styleHeight : option string;
  overflow : option string;
  pointerEvents : option string;
  zIndex : option Z;
  (** [translate(${x}px, ${y}px)] *)
  transform : option (Q * Q)
}.

Definition noStyle : InlineStyle :=
  mkStyle None None None None None None None None None.

Record Element := mkElement {
  tagName : string;
  elementId : string;
  className : string;
  textContent : option CSSRule;
  style : InlineStyle;
  attributes : gmap string string
}.

(** What [document.createElement(tag)] returns. *)
Definition blank (tag : string) : Element :=
  mkElement tag "" "" None noStyle ∅.

(** The node tree is kept the way the DOM exposes it: a [parentNode] pointer
    and an ordered list of children per node.  [nextNode] is the identity the
    next created node receives. *)
Record Document := mkDocument {
  parentOf : gmap node node;
  childrenOf : gmap node (list node);
  elementOf : gmap node Element;
  nextNode : node
}.

(** The page has one [<head>], one [<body>] and one [<html>] element; the
    [Document] node itself is a node of the tree, the parent of the [<html>]
    element as long as that element is in the document.  It is not an
    element, and is never passed where the code expects one. *)
Definition head : node := 0.
Definition body : node := 1.
Definition html : node := 2.
Definition documentNode : node := 3.

Definition parentNode (d : Document) (n : node) : option node :=
  parentOf d !! n.

(** [document.documentElement]: the [<html>] element while it is the child
    of the document, [null] (here [None]) once it has been moved elsewhere. *)
Definition documentElement (d : Document) : option node :=
  if decide (parentNode d html = Some documentNode) then Some html else None.

(** [document.head] and [document.body] are getters, evaluated at each use:
    the [<head>] (the [<body>]) element while it is a child of the document
    element, [null] once it, or the document element, has been moved
    elsewhere. *)
Definition childOfDocumentElement (d : Document) (n : node) : option node :=
  match documentElement d with
  | Some root => if decide (parentNode d n = Some root) then Some n else None
  | None => None
  end.

Definition documentHead (d : Document) : option node :=
  childOfDocumentElement d head.

Definition documentBody (d : Document) : option node :=
  childOfDocumentElement d body.

(** Both getters find their element. *)
Definition hostReady (d : Document) : Prop :=
  documentHead d = Some head /\ documentBody d = Some body.

Definition childNodes (d : Document) (n : node) : list node :=
  default [] (childrenOf d !! n).

Definition element (d : Document) (n : node) : Element :=
  default (blank "") (elementOf d !! n).

(** [p.contains(other)]: [other] is an inclusive descendant of [p].  The walk
    goes up the [parentNode] pointers; it is given as many steps as nodes
    have been created, which a chain of distinct created nodes cannot
    exceed. *)
Fixpoint inclusiveAncestor (fuel : nat) (parents : gmap node node)
    (p other : node) : bool :=
  if Nat.eqb p other then true
  else match fuel with
       | O => false
       | S fuel =>
           match parents !! other with
           | Some q => inclusiveAncestor fuel parents p q
           | None => false
           end
       end.

Definition contains (d : Document) (p other : node) : bool :=
  inclusiveAncestor (nextNode d) (parentOf d) p other.

Definition withoutChild (child : node) (l : list node) : list node :=
  List.filter (fun c => negb (Nat.eqb c child)) l.

(** Removing a node from its parent, when it has one. *)
Definition detach (child : node) (d : Document) : Document :=
  match parentOf d !! child with
  | Some q =>
      mkDocument (delete child (parentOf d))
                 (<[q := withoutChild child (childNodes d q)]> (childrenOf d))
                 (elementOf d) (nextNode d)
  | None => d
  end.

(** Inserting a parentless node as the last child. *)
Definition attachLast (parent child : node) (d : Document) : Document :=
  mkDocument (<[child := parent]> (parentOf d))
             (<[parent := (childNodes d parent ++ [child])%list]> (childrenOf d))
             (elementOf d) (nextNode d).

Definition allocate (tag : string) (d : Document) : Document :=
  mkDocument (parentOf d) (childrenOf d)
             (<[nextNode d := blank tag]> (elementOf d)) (S (nextNode d)).

Definition updateElement (n : node) (f : Element -> Element) (d : Document) : Document :=
  mkDocument (parentOf d) (childrenOf d)
             (<[n := f (element d n)]> (elementOf d)) (nextNode d).

(** Property assignments on an element: [e.id = v], [e.className = v],
    [e.textContent = v], [e.setAttribute(k, v)]. *)
Definition setId (v : string) (e : Element) : Element :=
  mkElement (tagName e) v (className e) (textContent e) (style e) (attributes e).

Definition setClassName (v : string) (e : Element) : Element :=
  mkElement (tagName e) (elementId e) v (textContent e) (style e) (attributes e).

Definition setTextContent (v : CSSRule) (e : Element) : Element :=
  mkElement (tagName e) (elementId e) (className e) (Some v) (style e)
            (attributes e).

Definition setAttribute (k v : string) (e : Element) : Element :=
  mkElement (tagName e) (elementId e) (className e) (textContent e) (style e)
            (<[k := v]> (attributes e)).

Definition updateStyle (f : InlineStyle -> InlineStyle) (e : Element) : Element :=
  mkElement (tagName e) (elementId e) (className e) (textContent e)
            (f (style e)) (attributes e).

(** Assignments on [e.style]: [cssText] replaces every declaration, the
    others set one. *)
Definition setCssText (st : InlineStyle) : Element -> Element :=
  updateStyle (fun _ => st).

Definition setPointerEvents (v : string) : Element -> Element :=
  updateStyle (fun st =>
    mkStyle (position st) (styleTop st) (styleLeft st) (styleWidth st)
            (styleHeight st) (overflow st) (Some v) (zIndex st) (transform st)).

Definition setPosition (v : string) : Element -> Element :=
  updateStyle (fun st =>
    mkStyle (Some v) (styleTop st) (styleLeft st) (styleWidth st)
            (styleHeight st) (overflow st) (pointerEvents st) (zIndex st)
            (transform st)).

Definition setTop (v : string) : Element -> Element :=
  updateStyle (fun st =>
    mkStyle (position st) (Some v) (styleLeft st) (styleWidth st)
            (styleHeight st) (overflow st) (pointerEvents st) (zIndex st)
            (transform st)).

Definition setLeft (v : string) : Element -> Element :=
  updateStyle (fun st =>
    mkStyle (position st) (styleTop st) (Some v) (styleWidth st)
            (styleHeight st) (overflow st) (pointerEvents st) (zIndex st)
            (transform st)).

Definition setTransform (xy : Q * Q) : Element -> Element :=
  updateStyle (fun st =>
    mkStyle (position st) (styleTop st) (styleLeft st) (styleWidth st)
            (styleHeight st) (overflow st) (pointerEvents st) (zIndex st)
            (Some xy)).

(** [p] is [x] or one of its ancestors, as a relation on the [parentNode]
    pointers. *)
Definition ancestorOrSelf (parents : gmap node node) (p x : node) : Prop :=
  rtc (fun c q => parents !! c = Some q) x p.

(** The chain of parents starting at [x] ends within [fuel] steps. *)
Fixpoint rootWithin (fuel : nat) (parents : gmap node node) (x : node) : bool :=
  match parents !! x with
  | None => true
  | Some q =>
      match fuel with
      | O => false
      | S fuel => rootWithin fuel parents q
      end
  end.

(** No node is its own ancestor. *)
Definition acyclic (parents : gmap node node) : Prop :=
  forall x q, parents !! x = Some q -> ~ ancestorOrSelf parents x q.

(** Every node that occurs in the tree has been created, and so have the
    page's head and body; the [parentNode] pointers form a forest. *)
Record wfTree (d : Document) : Prop := {
  wf_head : head < nextNode d;
  wf_body : body < nextNode d;
  wf_parent : forall c p,
    parentOf d !! c = Some p -> c < nextNode d /\ p < nextNode d;
  wf_acyclic : acyclic (parentOf d)
}.

(** A page as a script finds it: a well-formed tree in which [document.head]
    and [document.body] are present. *)
Record wfDocument (d : Document) : Prop := {
  wf_tree : wfTree d;
  wf_host : hostReady d
}.

End Dom.

(** ** The object behind [this.portals] *)

Module JsObject.
Import Dom.

(** [this.portals = {}] is an ordinary object: reading a property goes to the
    object's own properties first and then to [Object.prototype].  The own
    properties are kept in the order [Object.entries] lists them. *)
Definition properties := list (string * node).

(** What a property read can produce here: an element stored by
    [_createPortal], or a member inherited from [Object.prototype] (all of
    them are functions or objects, hence truthy). *)
Inductive Value :=
  | VElement (n : node)
  | VInherited (name : string).

Definition objectPrototype : list string :=
  [ "constructor"; "__defineGetter__"; "__defineSetter__"; "hasOwnProperty";
    "__lookupGetter__"; "__lookupSetter__"; "isPrototypeOf";
    "propertyIsEnumerable"; "toString"; "valueOf"; "__proto__";
    "toLocaleString" ].

Definition inherited (k : string) : bool :=
  existsb (String.eqb k) objectPrototype.

Definition ownProperty (o : properties) (k : string) : option node :=
  snd <$> List.find (fun kv => String.eqb (fst kv) k) o.

(** [o[k]]; [None] stands for [undefined]. *)
Definition getProperty (o : properties) (k : string) : option Value :=
  match ownProperty o k with
  | Some n => Some (VElement n)
  | None => if inherited k then Some (VInherited k) else None
  end.

(** Array indices: canonical decimal numerals below [2^32 - 1].  Properties
    with such keys are listed first, in ascending numeric order; all other
    string keys follow in the order of their creation. *)
Definition digit (c : ascii) : option N :=
  let n := N_of_ascii c in
  if ((48 <=? n) && (n <=? 57))%N then Some (n - 48)%N else None.

Fixpoint digits (s : string) (acc : N) : option N :=
  match s with
  | EmptyString => Some acc
  | String c s' =>
      match digit c with
      | Some d => digits s' (10 * acc + d)%N
      | None => None
      end
  end.

Definition arrayIndex (k : string) : option N :=
  match k with
  | EmptyString => None
  | String "0"%char EmptyString => Some 0%N
  | String "0"%char _ => None
  | _ =>
      match digits k 0 with
      | Some n => if (n <? 4294967295)%N then Some n else None
      | None => None
      end
  end.

Fixpoint insertIndexed (i : N) (k : string) (v : node) (o : properties)
    : properties :=
  match o with
  | [] => [(k, v)]
  | (k', v') :: o' =>
      match arrayIndex k' with
      | Some j =>
          if (j <? i)%N then (k', v') :: insertIndexed i k v o'
          else (k, v) :: o
      | None => (k, v) :: o
      end
  end.

(** Creating the own property [k]. *)
Definition defineProperty (o : properties) (k : string) (v : node) : properties :=
  match arrayIndex k with
  | Some i => insertIndexed i k v o
  | None => (o ++ [(k, v)])%list
  end.

Definition replaceProperty (o : properties) (k : string) (v : node) : properties :=
  map (fun kv => if String.eqb (fst kv) k then (k, v) else kv) o.

(** [o[k] = v], for a key that is not the [__proto__] accessor. *)
Definition setProperty (o : properties) (k : string) (v : node) : properties :=
  match ownProperty o k with
  | Some _ => replaceProperty o k v
  | None => defineProperty o k v
  end.

End JsObject.

(** ** The manager *)

Module PortalManager.
Import Placement Dom JsObject.

(** What the three signals have emitted, oldest first. *)
Inductive Event :=
  | PortalCreated (id : string) (portal : node)
  | ElementAdded (element : node) (portalId : string)
  | ElementRemoved (element : node) (portalId : string).

(** What the layout engine reports for the current tree. *)
Record Layout := mkLayout {
  boundingClientRect : node -> Rect;
  offsetSize : node -> Size;
  window : Viewport
}.

Record State := mkState {
  document : Document;
  layout : Document -> Layout;
  (** [this.portals] *)
  portals : properties;
  (** the calls of [emit] on [this.signals] *)
  emitted : list Event
}.

Inductive Outcome (A : Type) :=
  | Return (a : A) (s : State)
  | Throw (e : Error) (s : State).
Arguments Return {A} a s.
Arguments Throw {A} e s.

(** The state a call leaves behind, whether it returned or threw. *)
Definition stateOf {A} (o : Outcome A) : State :=
  match o with
  | Return _ s | Throw _ s => s
  end.

Definition M (A : Type) := State -> Outcome A.

Definition ret {A} (a : A) : M A := fun s => Return a s.

Definition bind {A B} (m : M A) (k : A -> M B) : M B :=
  fun s =>
    match m s with
    | Return a s' => k a s'
    | Throw e s' => Throw e s'
    end.

Definition throw {A} (e : Error) : M A := fun s => Throw e s.

Notation "'let*' x ':=' m 'in' k" := (bind m (fun x => k))
  (at level 10, x name, m at level 100, k at level 200).
Notation "m ';;' k" := (bind m (fun _ => k))
  (at level 100, k at level 200, right associativity).

Definition gets {A} (f : State -> A) : M A := fun s => Return (f s) s.

Definition mapDocument (f : Document -> Document) (s : State) : State :=
  mkState (f (document s)) (layout s) (portals s) (emitted s).

Definition onDocument (f : Document -> Document) : M unit :=
  fun s => Return tt (mapDocument f s).

Definition setPortals (o : properties) : M unit :=
  fun s => Return tt (mkState (document s) (layout s) o (emitted s)).

Definition emit (e : Event) : M unit :=
  fun s => Return tt (mkState (document s) (layout s) (portals s)
                              (emitted s ++ [e])%list).

(** *** DOM methods *)

Definition createElement (tag : string) : M node :=
  let* n := gets (fun s => nextNode (document s)) in
  onDocument (allocate tag);;
  ret n.

(** [parent.appendChild(child)]: refused when [child] is an inclusive
    ancestor of [parent]; otherwise [child] leaves its current parent and
    becomes the last child of [parent]. *)
Definition appendChild (parent child : node) : M node :=
  let* cyclic := gets (fun s => contains (document s) child parent) in
  if cyclic : bool then throw (DOMError HierarchyRequestError)
  else
    onDocument (fun d => attachLast parent child (detach child d));;
    ret child.

(** [parent.removeChild(child)]: refused when [child] is not a child of
    [parent]. *)
Definition removeChild (parent child : node) : M node :=
  let* p := gets (fun s => parentNode (document s) child) in
  if decide (p = Some parent) then
    onDocument (detach child);;
    ret child
  else throw (DOMError NotFoundError).

Definition update (n : node) (f : Element -> Element) : M unit :=
  onDocument (updateElement n f).

(** *** [_createPortal(id, zIndex = 9999)] *)

(** The number [zIndex] is interpolated into the text assigned to
    [cssText].  An integer below [10^21] in magnitude is written with its
    decimal digits, which is a CSS integer; from [10^21] on it is written
    with an exponent ([1e+21]), which is not, and the declaration is
    dropped when the text is parsed.  (A user agent may clamp a CSS integer
    to the range it supports, at least 32 bits wide; the field keeps the
    integer that was written.) *)
Definition cssInteger (z : Z) : option Z :=
  if (Z.abs z <? 10 ^ 21)%Z then Some z else None.

(** The declarations assigned to [portal.style.cssText]. *)
Definition portalCssText (zIndex : Z) : InlineStyle :=
  mkStyle (Some "fixed") (Some "0") (Some "0") (Some "100%") (Some "100%")
          (Some "visible") (Some "none") (cssInteger zIndex) None.

(** The text assigned to [portalStyle.textContent], kept as text: the number
    is the one the template interpolates. *)
Definition portalRule (id : string) (zIndex : Z) : CSSRule :=
  mkRule ("#portal-" ++ id) zIndex true.

Definition _createPortal (id : string) (zIndex : option Z) : M Value :=
  let zIndex := default 9999%Z zIndex in
  let* existing := gets (fun s => getProperty (portals s) id) in
  match existing with
  | Some v => ret v
  | None =>
      let* portal := createElement "div" in
      update portal (setId ("portal-" ++ id));;
      update portal (setClassName "ui-portal");;
      let* portalStyle := createElement "style" in
      update portalStyle (setTextContent (portalRule id zIndex));;
      (let* documentHead := gets (fun s => documentHead (document s)) in
       match documentHead with
       | Some h => appendChild h portalStyle
       | None => throw TypeError
       end);;
      update portal (setCssText (portalCssText zIndex));;
      (let* documentBody := gets (fun s => documentBody (document s)) in
       match documentBody with
       | Some b => appendChild b portal
       | None => throw TypeError
       end);;
      (let* o := gets portals in setPortals (setProperty o id portal));;
      update portal (setAttribute "data-portal-id" id);;
      emit (PortalCreated id portal);;
      ret (VElement portal)
  end.

(** *** [getPortal(id = "main", zIndex = 9999)] *)
Definition getPortal (id : option string) (zIndex : option Z) : M Value :=
  let id := default "main" id in
  let zIndex := default 9999%Z zIndex in
  let* existing := gets (fun s => getProperty (portals s) id) in
  match existing with
  | Some v => ret v
  | None => _createPortal id (Some zIndex)
  end.

(** *** [addToPortal(element, portalId = "main")] *)
Definition addToPortal (element : node) (portalId : option string) : M node :=
  let portalId := default "main" portalId in
  let* portal := getPortal (Some portalId) None in
  match portal with
  | VElement p => appendChild p element
  | VInherited _ => throw TypeError
  end;;
  update element (setPointerEvents "auto");;
  emit (ElementAdded element portalId);;
  ret element.

(** *** [removeFromPortal(element)] *)

(** The [for ... of Object.entries(this.portals)] loop with its [break]. *)
Definition findPortal (d : Document) (o : properties) (element : node)
    : option (string * node) :=
  List.find (fun entry => contains d (snd entry) element) o.

Definition removeFromPortal (element : node) : M bool :=
  let* found := gets (fun s => findPortal (document s) (portals s) element) in
  let* parent := gets (fun s => parentNode (document s) element) in
  match found with
  | Some (portalId, foundPortal) =>
      if decide (parent = Some foundPortal) then
        removeChild foundPortal element;;
        emit (ElementRemoved element portalId);;
        ret true
      else ret false
  | None => ret false
  end.

(** *** [positionElement(element, referenceElement, options = {})] *)
Record Options := mkOptions {
  placement : option string;
  portalId : option string;
  margin : option Q
}.

Definition noOptions : Options := mkOptions None None None.

Definition positionElement (element referenceElement : node) (options : Options)
    : M node :=
  let placement := default "bottom" (placement options) in
  let portalId := default "main" (portalId options) in
  let margin := default 5%Q (margin options) in
  let* measured := gets (fun s => layout s (document s)) in
  let rect := boundingClientRect measured referenceElement in
  let ideal := idealPosition rect (offsetSize measured element) margin placement in
  let translate := clampToViewport (offsetSize measured element) (window measured) ideal in
  update element (setPosition "absolute");;
  update element (setTop "0");;
  update element (setLeft "0");;
  update element (setTransform translate);;
  addToPortal element (Some portalId).

(** *** [destroy()] *)
Fixpoint removePortals (entries : properties) : M unit :=
  match entries with
  | [] => ret tt
  | (_, portal) :: rest =>
      let* parent := gets (fun s => parentNode (document s) portal) in
      match parent with
      | Some q => removeChild q portal;; ret tt
      | None => ret tt
      end;;
      removePortals rest
  end.

Definition destroy : M unit :=
  let* entries := gets portals in
  removePortals entries;;
  setPortals [].

(** *** [constructor()] *)

(** [new PortalManager()] in a host with tree [d] and layout engine [l]:
    the fields are initialised and the main portal is created. *)
Definition construct (d : Document) (l : Document -> Layout) : Outcome unit :=
  (_createPortal "main" (Some 9999%Z);; ret tt) (mkState d l [] []).

(** *** The states the manager keeps itself in *)

(** The tree is well formed; every registered portal is a created node other
    than the document's head and body and is not a child of the head; no
    identifier and no portal is registered twice. *)
Record wf (s : State) : Prop := {
  wf_document : wfTree (document s);
  wf_portal : forall id p,
    (id, p) ∈ portals s ->
    p < nextNode (document s) /\ (p <> head /\ p <> body) /\
    parentNode (document s) p <> Some head;
  wf_ids : NoDup (portals s).*1;
  wf_roots : NoDup (portals s).*2
}.

(** The tree after the body of [_createPortal] has run, for the portal node
    [nextNode d] and the style node after it. *)
Definition installPortal (id : string) (zIndex : Z) (d : Document) : Document :=
  let portal := nextNode d in
  let portalStyle := S portal in
  let d := allocate "div" d in
  let d := updateElement portal (setId ("portal-" ++ id)) d in
  let d := updateElement portal (setClassName "ui-portal") d in
  let d := allocate "style" d in
  let d := updateElement portalStyle (setTextContent (portalRule id zIndex)) d in
  let d := attachLast head portalStyle (detach portalStyle d) in
  let d := updateElement portal (setCssText (portalCssText zIndex)) d in
  let d := attachLast body portal (detach portal d) in
  updateElement portal (setAttribute "data-portal-id" id) d.

(** The tree when [_createPortal] stops because [document.head] is [null]:
    both elements have been created, neither is attached. *)
Definition preparePortal (id : string) (zIndex : Z) (d : Document) : Document :=
  let portal := nextNode d in
  let portalStyle := S portal in
  let d := allocate "div" d in
  let d := updateElement portal (setId ("portal-" ++ id)) d in
  let d := updateElement portal (setClassName "ui-portal") d in
  let d := allocate "style" d in
  updateElement portalStyle (setTextContent (portalRule id zIndex)) d.

(** The tree when it stops because [document.body] is [null]: the style
    element is in the head, the portal is not attached. *)
Definition stylePortal (id : string) (zIndex : Z) (d : Document) : Document :=
  let portal := nextNode d in
  let portalStyle := S portal in
  let d := preparePortal id zIndex d in
  let d := attachLast head portalStyle (detach portalStyle d) in
  updateElement portal (setCssText (portalCssText zIndex)) d.

Definition abandonPortal (id : string) (zIndex : Z) (d : Document) : Document :=
  match documentHead d with
  | Some _ => stylePortal id zIndex d
  | None => preparePortal id zIndex d
  end.

(** The state [_createPortal] throws in: nothing is registered and nothing
    is emitted. *)
Definition abandoned (id : string) (zIndex : Z) (s : State) : State :=
  mapDocument (abandonPortal id zIndex) s.

Definition installed (id : string) (zIndex : Z) (s : State) : State :=
  mkState (installPortal id zIndex (document s)) (layout s)
          (setProperty (portals s) id (nextNode (document s)))
          (emitted s ++ [PortalCreated id (nextNode (document s))])%list.

(** The state after [addToPortal] has appended [element] to the portal
    node [p], and after [removeFromPortal] has taken it out again. *)
Definition attached (element p : node) (portalId : string) (s : State) : State :=
  mkState (updateElement element (setPointerEvents "auto")
             (attachLast p element (detach element (document s))))
          (layout s) (portals s)
          (emitted s ++ [ElementAdded element portalId])%list.

Definition removed (element : node) (portalId : string) (s : State) : State :=
  mkState (detach element (document s)) (layout s) (portals s)
          (emitted s ++ [ElementRemoved element portalId])%list.

(** The tree after the loop of [destroy] has run over [entries]. *)
Definition detachAll (entries : properties) (d : Document) : Document :=
  fold_left (fun d entry => detach (snd entry) d) entries d.

(** The tree after the four style assignments of [positionElement]. *)
Definition positioned (element : node) (xy : Q * Q) (d : Document) : Document :=
  updateElement element (setTransform xy)
    (updateElement element (setLeft "0")
       (updateElement element (setTop "0")
          (updateElement element (setPosition "absolute") d))).

(** The fields of a manager before the constructor creates the main
    portal. *)
Definition initial (d : Document) (l : Document -> Layout) : State :=
  mkState d l [] [].

(** *** Use of the manager by a page *)

(** The public methods, with their arguments. *)
Inductive Call :=
  | GetPortal (id : option string) (zIndex : option Z)
  | AddToPortal (element : node) (portalId : option string)
  | RemoveFromPortal (element : node)
  | PositionElement (element referenceElement : node) (options : Options)
  | Destroy.

(** The state after a call, whether the call returned or threw. *)
Definition perform (c : Call) (s : State) : State :=
  match c with
  | GetPortal id zIndex => stateOf (getPortal id zIndex s)
  | AddToPortal element portalId => stateOf (addToPortal element portalId s)
  | RemoveFromPortal element => stateOf (removeFromPortal element s)
  | PositionElement element referenceElement options =>
      stateOf (positionElement element referenceElement options s)
  | Destroy => stateOf (destroy s)
  end.

(** The elements handed to the manager have been created. *)
Definition created (c : Call) (s : State) : Prop :=
  match c with
  | AddToPortal element _ | PositionElement element _ _ =>
      element < nextNode (document s)
  | _ => True
  end.

(** The states of a manager constructed on a well-formed page and then used
    through its methods. *)
Inductive reachable : State -> Prop :=
  | reachable_construct d l :
      wfDocument d -> reachable (stateOf (construct d l))
  | reachable_perform s c :
      reachable s -> created c s -> reachable (perform c s).

End PortalManager.

(** ** A sample page *)

Module Sample.
Import Placement Dom JsObject PortalManager.

(** The document (node 3) holds [<html>] (node 2), which holds the head and
    the body; the body holds a button (node 4); a tooltip (node 5) with one
    child (node 6) has been created by the page but is not attached
    anywhere. *)
Definition button : node := 4.
Definition tooltip : node := 5.
Definition label : node := 6.

Definition page : Document :=
  mkDocument
    (<[html := documentNode]> (<[head := html]> (<[body := html]>
       (<[button := body]> (<[label := tooltip]> ∅)))))
    (<[documentNode := [html]]> (<[html := [head; body]]>
       (<[body := [button]]> (<[tooltip := [label]]> ∅))))
    (<[html := blank "html"]> (<[head := blank "head"]>
       (<[body := blank "body"]> (<[button := blank "button"]>
          (<[tooltip := blank "div"]> (<[label := blank "span"]> ∅))))))
    7.

(** The button measures 50 by 20 pixels at (100, 100), every other element
    30 by 10, in a window of 1000 by 1000. *)
Definition engine : Document -> Layout :=
  fun _ => mkLayout (fun _ => domRect 100 100 50 20)
                    (fun _ => mkSize 30 10)
                    (mkViewport 1000 1000).

(** [new PortalManager()] on the sample page. *)
Definition fresh : State := stateOf (construct page engine).

(** [getPortal("tooltips", 10000)] followed by [addToPortal] of the portal
    that call returned, into the main portal. *)
Definition nestPortal : M node :=
  let* t := getPortal (Some "tooltips") (Some 10000%Z) in
  match t with
  | VElement n => addToPortal n (Some "main")
  | VInherited _ => throw TypeError
  end.

Definition nested : State := stateOf (nestPortal fresh).

(** [destroy()] followed by [getPortal("tooltips")]. *)
Definition rebuilt : State :=
  stateOf ((destroy;; getPortal (Some "tooltips") None) fresh).

(** The tooltip has been added to the main portal; its label is then a
    grandchild of the portal. *)
Definition mounted : State := stateOf (addToPortal tooltip (Some "main") fresh).

End Sample.

(** ** Ordinary use *)

Module Usage.
Import Placement Dom JsObject PortalManager Sample.

(** The portals as [_createPortal] leaves them, as long as no portal node is
    handed back to the manager as an element: each one is a child of the body
    or has no parent, and none contains the body. *)
Definition flat (s : State) : Prop :=
  forall id p,
    (id, p) ∈ portals s ->
    (forall q, parentNode (document s) p = Some q -> q = body) /\
    contains (document s) p body = false.

(** An element a page mounts: it has been created, it is not a registered
    portal and it does not contain the body. *)
Definition mountable (s : State) (e : node) : Prop :=
  e < nextNode (document s) /\
  (forall id p, (id, p) ∈ portals s -> p <> e) /\
  contains (document s) e body = false.

(** A call that hands the manager a mountable element, or none. *)
Definition plain (c : Call) (s : State) : Prop :=
  match c with
  | AddToPortal element _ | PositionElement element _ _ => mountable s element
  | _ => True
  end.

(** The portals are where [_createPortal] put them: each one is a child of
    the body. *)
Definition moored (s : State) : Prop :=
  forall id p, (id, p) ∈ portals s -> parentNode (document s) p = Some body.

(** A call that hands the manager a created element that is not one of its
    own portals, or no element. *)
Definition handsNoPortal (c : Call) (s : State) : Prop :=
  match c with
  | AddToPortal element _ | PositionElement element _ _ =>
      element < nextNode (document s) /\
      forall id p, (id, p) ∈ portals s -> p <> element
  | _ => True
  end.

(** The states of a manager constructed on a page and then used through its
    methods without ever being handed one of its own portals. *)
Inductive ordinary : State -> Prop :=
  | ordinary_construct d l :
      wfDocument d -> ordinary (stateOf (construct d l))
  | ordinary_perform s c :
      ordinary s -> handsNoPortal c s -> ordinary (perform c s).

(** A step from [s] to [s'] either keeps an entry of the registry or has just
    created and announced it, and takes back nothing that was emitted. *)
Definition announcedIn (s s' : State) : Prop :=
  (forall ev, ev ∈ emitted s -> ev ∈ emitted s') /\
  (forall id p,
     (id, p) ∈ portals s' ->
     (id, p) ∈ portals s \/
     (inherited id = false /\ PortalCreated id p ∈ emitted s')).

(** The tooltip is added to a portal "tooltips" that [addToPortal] creates. *)
Definition tipped : State :=
  stateOf (addToPortal tooltip (Some "tooltips") fresh).

End Usage.

(** * Properties *)

Local Open Scope list_scope.

(** ** Numbers *)

Lemma Qltb_lt a b : Qltb a b = true <-> (a < b)%Q.
Proof.
  unfold Qltb. rewrite Qlt_alt.
  destruct (a ?= b)%Q; split; congruence.
Qed.

Lemma Qltb_ge a b : Qltb a b = false <-> (b <= a)%Q.
Proof.
  pose proof (Qltb_lt a b) as H.
  destruct (Qltb a b); split; intros Hx; try done.
  - apply Qle_not_lt in Hx. tauto.
  - apply Qnot_lt_le. intros Hlt. apply H in Hlt. discriminate.
Qed.

(** ** Placement *)

Section PlacementFacts.
Import Placement.

Lemma clampAxis_nonneg_fits v extent limit :
  (0 <= v)%Q -> (v + extent <= limit)%Q -> clampAxis v extent limit = v.
Proof.
  intros H0 Hfit. unfold clampAxis.
  destruct (Qltb v 0) eqn:E0.
  { apply Qltb_lt in E0. lra. }
  destruct (Qltb limit (v + extent)) eqn:E1; [|done].
  apply Qltb_lt in E1. lra.
Qed.

(** An extent larger than the limit always triggers the far-edge rule. *)
Lemma clampAxis_oversized v extent limit :
  (limit < extent)%Q -> clampAxis v extent limit = (limit - extent)%Q.
Proof.
  intros Hbig. unfold clampAxis.
  destruct (Qltb v 0) eqn:E0.
  - destruct (Qltb limit (0 + extent)) eqn:E1; [done|].
    apply Qltb_ge in E1. lra.
  - apply Qltb_ge in E0.
    destruct (Qltb limit (v + extent)) eqn:E1; [done|].
    apply Qltb_ge in E1. lra.
Qed.

Lemma clampToViewport_axes el vp x y :
  clampToViewport el vp (x, y) =
    (clampAxis x (offsetWidth el) (innerWidth vp),
     clampAxis y (offsetHeight el) (innerHeight vp)).
Proof. reflexivity. Qed.

Lemma clampRules_axes el vp x y :
  fold_left (applyRule el vp) clampRules (x, y) =
    (clampAxis x (offsetWidth el) (innerWidth vp),
     clampAxis y (offsetHeight el) (innerHeight vp)).
Proof.
  unfold clampRules, clampAxis, fold_left, applyRule.
  destruct (Qltb x 0), (Qltb y 0);
    repeat match goal with
           | |- context [Qltb ?a ?b] => destruct (Qltb a b)
           end; reflexivity.
Qed.

Ltac not_a_mode H :=
  exfalso; apply H; unfold modeNames; simpl;
  repeat first [apply list_elem_of_here | apply list_elem_of_further].

Lemma idealPosition_default rect el margin placement :
  placement ∉ modeNames ->
  idealPosition rect el margin placement = (left rect, (bottom rect + margin)%Q).
Proof.
  intros H. unfold idealPosition.
  repeat match goal with
         | |- context [String.eqb placement ?m] =>
             let E := fresh "E" in
             destruct (String.eqb placement m) eqn:E;
             [apply String.eqb_eq in E; subst placement; not_a_mode H|]
         end.
  reflexivity.
Qed.

End PlacementFacts.

(** ** Property lists *)

Section JsObjectFacts.
Import Dom JsObject.
Implicit Types (o : properties) (k : string) (v n : node).

Lemma ownProperty_cons o k k' v :
  ownProperty ((k', v) :: o) k =
    if String.eqb k' k then Some v else ownProperty o k.
Proof.
  unfold ownProperty. simpl. by destruct (String.eqb k' k).
Qed.

Lemma ownProperty_None o k : ownProperty o k = None <-> k ∉ o.*1.
Proof.
  induction o as [|[k' v] o IH].
  - split; [intros _; apply not_elem_of_nil | done].
  - rewrite ownProperty_cons, fmap_cons, not_elem_of_cons. simpl.
    destruct (String.eqb k' k) eqn:E.
    + apply String.eqb_eq in E. subst. split; [done | intros [? _]; done].
    + apply String.eqb_neq in E. rewrite IH. split; [|tauto].
      intros H; split; [congruence | done].
Qed.

Lemma ownProperty_Some o k v : ownProperty o k = Some v -> (k, v) ∈ o.
Proof.
  induction o as [|[k' v'] o IH]; [done|].
  rewrite ownProperty_cons.
  destruct (String.eqb k' k) eqn:E.
  - apply String.eqb_eq in E. intros [= ->]. subst. apply list_elem_of_here.
  - intros H. apply list_elem_of_further. auto.
Qed.

Lemma ownProperty_elem_of o k v :
  NoDup o.*1 -> (k, v) ∈ o -> ownProperty o k = Some v.
Proof.
  induction o as [|[k' v'] o IH]; intros Hnd Hin.
  - by apply elem_of_nil in Hin.
  - rewrite fmap_cons in Hnd. apply NoDup_cons in Hnd as [Hk' Hnd].
    rewrite ownProperty_cons. apply elem_of_cons in Hin as [Heq | Hin].
    + injection Heq as -> ->. by rewrite String.eqb_refl.
    + destruct (String.eqb k' k) eqn:E; [|auto].
      apply String.eqb_eq in E. subst k'. exfalso. apply Hk'.
      apply list_elem_of_fmap. by exists (k, v).
Qed.

Lemma ownProperty_app o1 o2 k :
  ownProperty (o1 ++ o2) k =
    match ownProperty o1 k with
    | Some v => Some v
    | None => ownProperty o2 k
    end.
Proof.
  induction o1 as [|[k' v'] o1 IH]; [done|].
  rewrite <- app_comm_cons, !ownProperty_cons.
  by destruct (String.eqb k' k).
Qed.

Lemma insertIndexed_perm i k v o : insertIndexed i k v o ≡ₚ (k, v) :: o.
Proof.
  induction o as [|[k' v'] o IH]; simpl; [done|].
  destruct (arrayIndex k'); [|done].
  destruct (_ <? _)%N; [|done].
  rewrite IH. apply Permutation_swap.
Qed.

Lemma defineProperty_perm o k v : defineProperty o k v ≡ₚ (k, v) :: o.
Proof.
  unfold defineProperty. destruct (arrayIndex k).
  - apply insertIndexed_perm.
  - by rewrite Permutation_app_comm.
Qed.

Lemma ownProperty_insertIndexed i k v o :
  ownProperty o k = None -> ownProperty (insertIndexed i k v o) k = Some v.
Proof.
  induction o as [|[k' v'] o IH]; simpl.
  - intros _. by rewrite ownProperty_cons, String.eqb_refl.
  - rewrite ownProperty_cons. destruct (String.eqb k' k) eqn:E; [done|].
    intros Ho. destruct (arrayIndex k').
    + destruct (_ <? _)%N.
      * rewrite ownProperty_cons, E. auto.
      * by rewrite ownProperty_cons, String.eqb_refl.
    + by rewrite ownProperty_cons, String.eqb_refl.
Qed.

Lemma ownProperty_defineProperty o k v :
  ownProperty o k = None -> ownProperty (defineProperty o k v) k = Some v.
Proof.
  intros Ho. unfold defineProperty. destruct (arrayIndex k).
  - by apply ownProperty_insertIndexed.
  - by rewrite ownProperty_app, Ho, ownProperty_cons, String.eqb_refl.
Qed.

(** A property that reads as [undefined] is neither an own property nor an
    inherited one. *)
Lemma getProperty_None o k :
  getProperty o k = None <-> ownProperty o k = None /\ inherited k = false.
Proof.
  unfold getProperty.
  destruct (ownProperty o k); [split; [done | intros [? _]; done]|].
  destruct (inherited k); split; try done. intros [_ ?]; done.
Qed.

Lemma getProperty_own o k v :
  ownProperty o k = Some v -> getProperty o k = Some (VElement v).
Proof. unfold getProperty. by intros ->. Qed.

Lemma setProperty_fresh o k v :
  ownProperty o k = None -> setProperty o k v = defineProperty o k v.
Proof. unfold setProperty. by intros ->. Qed.

Lemma setProperty_fresh_perm o k v :
  ownProperty o k = None -> setProperty o k v ≡ₚ (k, v) :: o.
Proof. intros H. rewrite setProperty_fresh by done. apply defineProperty_perm. Qed.

Lemma getProperty_setProperty o k v :
  ownProperty o k = None ->
  getProperty (setProperty o k v) k = Some (VElement v).
Proof.
  intros H. apply getProperty_own. rewrite setProperty_fresh by done.
  by apply ownProperty_defineProperty.
Qed.

End JsObjectFacts.

(** ** The node tree *)

Section DomFacts.
Import Dom.
Implicit Types (d : Document) (parents : gmap node node) (p q x c n : node).

Lemma ancestorOrSelf_refl parents x : ancestorOrSelf parents x x.
Proof. apply rtc_refl. Qed.

Lemma ancestorOrSelf_step parents p x q :
  parents !! x = Some q -> ancestorOrSelf parents p q -> ancestorOrSelf parents p x.
Proof. intros Hx Hq. by eapply rtc_l. Qed.

Lemma ancestorOrSelf_inv parents p x :
  ancestorOrSelf parents p x ->
  p = x \/ exists q, parents !! x = Some q /\ ancestorOrSelf parents p q.
Proof.
  intros H. apply rtc_inv in H as [-> | (q & Hq & H)]; [by left | right; eauto].
Qed.

(** A proper ancestor is the parent of some node. *)
Lemma ancestorOrSelf_parent parents p x :
  ancestorOrSelf parents p x -> p = x \/ exists c, parents !! c = Some p.
Proof.
  unfold ancestorOrSelf. induction 1 as [|x y z Hxy Hyz IH]; [by left|].
  right. destruct IH as [-> | IH]; eauto.
Qed.

Lemma inclusiveAncestor_sound fuel parents p x :
  inclusiveAncestor fuel parents p x = true -> ancestorOrSelf parents p x.
Proof.
  revert x. induction fuel as [|fuel IH]; intros x; simpl.
  - destruct (Nat.eqb_spec p x) as [->|]; [intros _; apply rtc_refl | done].
  - destruct (Nat.eqb_spec p x) as [->|]; [intros _; apply rtc_refl|].
    destruct (parents !! x) as [q|] eqn:Hq; [|done].
    intros H. eapply ancestorOrSelf_step; eauto.
Qed.

(** When the chain above [x] ends within the fuel, the walk decides the
    relation. *)
Lemma inclusiveAncestor_complete fuel parents p x :
  rootWithin fuel parents x = true ->
  ancestorOrSelf parents p x -> inclusiveAncestor fuel parents p x = true.
Proof.
  revert x. induction fuel as [|fuel IH]; intros x Hroot Hanc; simpl in *.
  - destruct (Nat.eqb_spec p x) as [|Hne]; [done|].
    apply ancestorOrSelf_inv in Hanc as [? | (q & Hq & _)]; [done|].
    by rewrite Hq in Hroot.
  - destruct (Nat.eqb_spec p x) as [|Hne]; [done|].
    apply ancestorOrSelf_inv in Hanc as [? | (q & Hq & Hanc)]; [done|].
    rewrite Hq in *. auto.
Qed.

Lemma inclusiveAncestor_parent fuel parents p x :
  parents !! x = Some p -> inclusiveAncestor (S fuel) parents p x = true.
Proof.
  intros H. simpl. destruct (Nat.eqb p x); [done|].
  rewrite H. destruct fuel; simpl; by rewrite Nat.eqb_refl.
Qed.

(** Re-parenting [k] does not change the ancestors of a node whose chain
    does not pass through [k]. *)
Lemma ancestorOrSelf_insert parents k v p x :
  ~ ancestorOrSelf parents k x ->
  ancestorOrSelf (<[k := v]> parents) p x -> ancestorOrSelf parents p x.
Proof.
  intros Hk H. unfold ancestorOrSelf in H.
  induction H as [|x y z Hxy Hyz IH]; [apply rtc_refl|].
  assert (k <> x) as Hne by (intros ->; apply Hk, rtc_refl).
  rewrite lookup_insert_ne in Hxy by done.
  eapply ancestorOrSelf_step; [done|]. apply IH.
  intros Hky. apply Hk. by eapply ancestorOrSelf_step.
Qed.

Lemma ancestorOrSelf_insert_back parents k v p x :
  ~ ancestorOrSelf parents k x ->
  ancestorOrSelf parents p x -> ancestorOrSelf (<[k := v]> parents) p x.
Proof.
  intros Hk H. unfold ancestorOrSelf in H.
  induction H as [|x y z Hxy Hyz IH]; [apply rtc_refl|].
  assert (k <> x) as Hne by (intros ->; apply Hk, rtc_refl).
  eapply ancestorOrSelf_step; [by rewrite lookup_insert_ne|]. apply IH.
  intros Hky. apply Hk. by eapply ancestorOrSelf_step.
Qed.

Lemma ancestorOrSelf_trans parents a b c :
  ancestorOrSelf parents a b -> ancestorOrSelf parents b c ->
  ancestorOrSelf parents a c.
Proof. unfold ancestorOrSelf. intros Hab Hbc. by etrans. Qed.

Lemma ancestorOrSelf_delete parents k p x :
  ancestorOrSelf (delete k parents) p x -> ancestorOrSelf parents p x.
Proof.
  unfold ancestorOrSelf. induction 1 as [|x y z Hxy Hyz IH]; [apply rtc_refl|].
  apply lookup_delete_Some in Hxy as [_ Hxy]. by eapply rtc_l.
Qed.

(** After [k] has been re-parented to [v], a chain of parents either is a
    chain of the old tree or runs through [k] and continues above [v]. *)
Lemma ancestorOrSelf_insert_split parents k v p x :
  ancestorOrSelf (<[k := v]> parents) p x ->
  ancestorOrSelf parents p x \/
  (ancestorOrSelf parents k x /\ ancestorOrSelf (<[k := v]> parents) p v).
Proof.
  intros H. unfold ancestorOrSelf in H.
  induction H as [|x y z Hxy Hyz IH]; [left; apply rtc_refl|].
  destruct (decide (k = x)) as [->|Hne].
  - rewrite lookup_insert_eq in Hxy. injection Hxy as ->.
    right. split; [apply rtc_refl | done].
  - rewrite lookup_insert_ne in Hxy by done.
    destruct IH as [IH | [Hk Hv]].
    + left. by eapply ancestorOrSelf_step.
    + right. split; [by eapply ancestorOrSelf_step | done].
Qed.

Lemma acyclic_insert parents c p :
  acyclic parents -> ~ ancestorOrSelf parents c p ->
  acyclic (<[c := p]> parents).
Proof.
  intros Hac Hfree x q Hxq Hcycle.
  destruct (decide (c = x)) as [->|Hne].
  - rewrite lookup_insert_eq in Hxq. injection Hxq as <-.
    by apply ancestorOrSelf_insert in Hcycle.
  - rewrite lookup_insert_ne in Hxq by done.
    apply ancestorOrSelf_insert_split in Hcycle as [Hold | [Hcq Hxp]].
    + by eapply Hac.
    + apply ancestorOrSelf_insert in Hxp; [|done].
      apply Hfree. eapply ancestorOrSelf_trans; [|exact Hxp].
      by eapply ancestorOrSelf_step.
Qed.

Lemma acyclic_delete parents k : acyclic parents -> acyclic (delete k parents).
Proof.
  intros Hac x q Hxq Hcycle.
  apply lookup_delete_Some in Hxq as [_ Hxq].
  apply ancestorOrSelf_delete in Hcycle. by eapply Hac.
Qed.

(** Distinct nodes below [n] are at most [n]. *)
Lemma distinct_nodes_bound (l : list node) (n : nat) :
  NoDup l -> (forall y, y ∈ l -> y < n) -> length l <= n.
Proof.
  intros Hnd Hlt.
  assert (l ⊆+ seq 0 n) as Hsub.
  { apply NoDup_submseteq; [done|].
    intros y Hy. apply elem_of_seq. apply Hlt in Hy. lia. }
  apply submseteq_length in Hsub. by rewrite length_seq in Hsub.
Qed.

(** In a forest whose nodes lie below [n], a walk that has already left the
    distinct nodes [seen] behind ends within the remaining fuel. *)
Lemma rootWithin_seen parents (n fuel : nat) x (seen : list node) :
  acyclic parents ->
  (forall c q, parents !! c = Some q -> c < n) ->
  NoDup seen ->
  (forall y, y ∈ seen ->
     y < n /\ exists q, parents !! y = Some q /\ ancestorOrSelf parents x q) ->
  n <= length seen + fuel ->
  rootWithin fuel parents x = true.
Proof.
  intros Hac Hlt. revert x seen.
  induction fuel as [|fuel IH]; intros x seen Hnd Hseen Hlen.
  - cbn. destruct (parents !! x) as [q|] eqn:Hxq; [|done]. exfalso.
    assert (x ∉ seen) as Hx.
    { intros Hin. apply Hseen in Hin as (_ & q' & Hq' & Hanc).
      by eapply Hac. }
    assert (length (x :: seen) <= n) as Hbound.
    { apply distinct_nodes_bound; [by apply NoDup_cons|].
      intros y [->|Hy]%elem_of_cons; [exact (Hlt _ _ Hxq) | by apply Hseen]. }
    cbn in Hbound. lia.
  - cbn. destruct (parents !! x) as [q|] eqn:Hxq; [|done].
    assert (x ∉ seen) as Hx.
    { intros Hin. apply Hseen in Hin as (_ & q' & Hq' & Hanc).
      by eapply Hac. }
    apply (IH q (x :: seen)).
    + by apply NoDup_cons.
    + intros y [->|Hy]%elem_of_cons.
      * split; [exact (Hlt _ _ Hxq)|]. exists q. split; [done | apply rtc_refl].
      * destruct (Hseen y Hy) as (Hyn & q' & Hq' & Hanc).
        split; [done|]. exists q'. split; [done|].
        eapply ancestorOrSelf_trans; [|exact Hanc].
        eapply ancestorOrSelf_step; [done | apply rtc_refl].
    + cbn. lia.
Qed.

Lemma rootWithin_total d x :
  wfTree d -> rootWithin (nextNode d) (parentOf d) x = true.
Proof.
  intros [_ _ Hp Hac].
  apply (rootWithin_seen _ (nextNode d) _ _ []).
  - done.
  - intros c q Hc. by apply Hp in Hc as [? _].
  - apply NoDup_nil_2.
  - intros y Hy. by apply elem_of_nil in Hy.
  - cbn. lia.
Qed.

Lemma contains_sound d p x :
  contains d p x = true -> ancestorOrSelf (parentOf d) p x.
Proof. apply inclusiveAncestor_sound. Qed.

(** In a well-formed tree [contains] is exactly the ancestor relation. *)
Lemma contains_exact d p x :
  wfTree d ->
  contains d p x = true <-> ancestorOrSelf (parentOf d) p x.
Proof.
  intros Hd. split; [apply contains_sound|].
  apply inclusiveAncestor_complete. by apply rootWithin_total.
Qed.

Lemma contains_not_ancestor d p x :
  wfTree d -> contains d p x = false ->
  ~ ancestorOrSelf (parentOf d) p x.
Proof.
  intros Hd Hc H. apply (contains_exact _ _ _ Hd) in H. congruence.
Qed.

Lemma contains_false d p x :
  ~ ancestorOrSelf (parentOf d) p x -> contains d p x = false.
Proof.
  intros H. destruct (contains d p x) eqn:E; [|done].
  by apply contains_sound in E.
Qed.

Lemma contains_parent d p x :
  parentNode d x = Some p -> wfTree d -> contains d p x = true.
Proof.
  intros Hp Hwf. unfold contains.
  destruct (nextNode d) as [|fuel] eqn:E.
  - pose proof (wf_head _ Hwf). lia.
  - by apply inclusiveAncestor_parent.
Qed.

(** A node that is no one's parent contains only itself. *)
Lemma contains_childless d p x :
  (forall c, parentOf d !! c <> Some p) -> p <> x -> contains d p x = false.
Proof.
  intros Hnone Hne. apply contains_false. intros H.
  apply ancestorOrSelf_parent in H as [? | [c Hc]]; [done|]. by eapply Hnone.
Qed.

(** *** Structural updates *)

Lemma parentOf_detach d c : parentOf (detach c d) = delete c (parentOf d).
Proof.
  unfold detach. destruct (parentOf d !! c) eqn:E; [done|].
  symmetry. by apply delete_id.
Qed.

Lemma parentOf_reparent d p c :
  parentOf (attachLast p c (detach c d)) = <[c := p]> (parentOf d).
Proof. simpl. rewrite parentOf_detach. apply insert_delete_eq. Qed.

Lemma nextNode_detach d c : nextNode (detach c d) = nextNode d.
Proof. unfold detach. by destruct (parentOf d !! c). Qed.

Lemma elementOf_detach d c : elementOf (detach c d) = elementOf d.
Proof. unfold detach. by destruct (parentOf d !! c). Qed.

Lemma detach_orphan d c : parentOf d !! c = None -> detach c d = d.
Proof. unfold detach. by intros ->. Qed.

Lemma childNodes_detach_ne d c n :
  parentOf d !! c <> Some n -> childNodes (detach c d) n = childNodes d n.
Proof.
  unfold detach. destruct (parentOf d !! c) as [q|] eqn:E; [|done].
  intros Hne. unfold childNodes. simpl. rewrite lookup_insert_ne; [done|].
  congruence.
Qed.

Lemma childNodes_attachLast d p c :
  childNodes (attachLast p c d) p = childNodes d p ++ [c].
Proof. unfold childNodes at 1. simpl. by rewrite lookup_insert_eq. Qed.

Lemma childNodes_attachLast_ne d p c n :
  p <> n -> childNodes (attachLast p c d) n = childNodes d n.
Proof. intros H. unfold childNodes. simpl. by rewrite lookup_insert_ne. Qed.

Lemma childNodes_updateElement d n f m :
  childNodes (updateElement n f d) m = childNodes d m.
Proof. done. Qed.

Lemma element_updateElement d n f :
  element (updateElement n f d) n = f (element d n).
Proof. unfold element at 1. simpl. by rewrite lookup_insert_eq. Qed.

Lemma element_updateElement_ne d n f m :
  n <> m -> element (updateElement n f d) m = element d m.
Proof. intros H. unfold element. simpl. by rewrite lookup_insert_ne. Qed.

Lemma element_detach d c m : element (detach c d) m = element d m.
Proof. unfold element. by rewrite elementOf_detach. Qed.

(** [appendChild] keeps the tree well formed: its check is what excludes a
    cycle. *)
Lemma wfTree_reparent d p c :
  wfTree d -> p < nextNode d -> c < nextNode d ->
  contains d c p = false ->
  wfTree (attachLast p c (detach c d)).
Proof.
  intros Hd Hlt Hc Hfree.
  pose proof (contains_not_ancestor _ _ _ Hd Hfree) as Hnot.
  destruct Hd as [Hh Hb Hp Hac].
  split; simpl; rewrite ?nextNode_detach; try done.
  - intros c' p'. rewrite parentOf_detach, insert_delete_eq.
    rewrite lookup_insert. case_decide; [intros [= <-]; by subst | apply Hp].
  - rewrite parentOf_detach, insert_delete_eq. by apply acyclic_insert.
Qed.

Lemma wfTree_detach d c : wfTree d -> wfTree (detach c d).
Proof.
  intros [Hh Hb Hp Hac].
  split; rewrite ?nextNode_detach; try done.
  - intros c' p'. rewrite parentOf_detach, lookup_delete.
    case_decide; [done | apply Hp].
  - rewrite parentOf_detach. by apply acyclic_delete.
Qed.

Lemma wfTree_updateElement d n f :
  wfTree d -> wfTree (updateElement n f d).
Proof. intros [Hh Hb Hp Hac]. by split. Qed.

(** *** The getters [document.head] and [document.body] *)

Lemma hostReady_parents d :
  hostReady d <->
  parentNode d html = Some documentNode /\
  parentNode d head = Some html /\ parentNode d body = Some html.
Proof.
  unfold hostReady, documentHead, documentBody, childOfDocumentElement,
    documentElement.
  destruct (decide (parentNode d html = Some documentNode)) as [Hr|Hr];
    [|intuition discriminate].
  destruct (decide (parentNode d head = Some html)) as [Hh|Hh];
    [|intuition discriminate].
  destruct (decide (parentNode d body = Some html)) as [Hb|Hb];
    intuition discriminate.
Qed.

Lemma hostReady_decide d : hostReady d \/ ~ hostReady d.
Proof.
  rewrite hostReady_parents.
  destruct (decide (parentNode d html = Some documentNode)); [|tauto].
  destruct (decide (parentNode d head = Some html)); [|tauto].
  destruct (decide (parentNode d body = Some html)); tauto.
Qed.

(** Each getter returns its element or nothing. *)
Lemma childOfDocumentElement_Some d n m :
  childOfDocumentElement d n = Some m -> m = n.
Proof.
  unfold childOfDocumentElement. destruct (documentElement d); [|done].
  case_decide; [by intros [=] | done].
Qed.

(** The getters read the parents of the element and of [<html>] only. *)
Lemma childOfDocumentElement_ext d d' n :
  parentNode d' html = parentNode d html ->
  parentNode d' n = parentNode d n ->
  childOfDocumentElement d' n = childOfDocumentElement d n.
Proof.
  unfold childOfDocumentElement, documentElement. by intros -> ->.
Qed.

Lemma hostReady_ext d d' :
  parentNode d' html = parentNode d html ->
  parentNode d' head = parentNode d head ->
  parentNode d' body = parentNode d body ->
  hostReady d -> hostReady d'.
Proof. rewrite !hostReady_parents. by intros -> -> ->. Qed.

End DomFacts.

(** ** Running the monad *)

Section MonadFacts.
Import Placement Dom JsObject PortalManager.

Lemma bind_Return {A B} (m : M A) (k : A -> M B) s a s' :
  m s = Return a s' -> bind m k s = k a s'.
Proof. unfold bind. by intros ->. Qed.

Lemma bind_Throw {A B} (m : M A) (k : A -> M B) s e s' :
  m s = Throw e s' -> bind m k s = Throw e s'.
Proof. unfold bind. by intros ->. Qed.

Lemma gets_run {A} (f : State -> A) s : gets f s = Return (f s) s.
Proof. done. Qed.

Lemma createElement_run tag s :
  createElement tag s =
    Return (nextNode (document s)) (mapDocument (allocate tag) s).
Proof. done. Qed.

Lemma update_run n f s :
  update n f s = Return tt (mapDocument (updateElement n f) s).
Proof. done. Qed.

Lemma appendChild_run p c s :
  contains (document s) c p = false ->
  appendChild p c s =
    Return c (mapDocument (fun d => attachLast p c (detach c d)) s).
Proof. intros H. unfold appendChild, bind, gets. by rewrite H. Qed.

Lemma appendChild_cyclic p c s :
  contains (document s) c p = true ->
  appendChild p c s = Throw (DOMError HierarchyRequestError) s.
Proof. intros H. unfold appendChild, bind, gets. by rewrite H. Qed.

Lemma removeChild_run p c s :
  parentNode (document s) c = Some p ->
  removeChild p c s = Return c (mapDocument (detach c) s).
Proof.
  intros H. unfold removeChild, bind, gets. rewrite H.
  by rewrite decide_True.
Qed.

Lemma state_eta s :
  mkState (document s) (layout s) (portals s) (emitted s) = s.
Proof. by destruct s. Qed.

End MonadFacts.

(** ** Projections of the structural updates *)

Section ProjectionFacts.
Import Dom.
Implicit Types (d : Document) (n m p c : node).

Lemma nextNode_updateElement d n f : nextNode (updateElement n f d) = nextNode d.
Proof. done. Qed.

Lemma nextNode_attachLast d p c : nextNode (attachLast p c d) = nextNode d.
Proof. done. Qed.

Lemma nextNode_allocate d tag : nextNode (allocate tag d) = S (nextNode d).
Proof. done. Qed.

Lemma parentOf_updateElement d n f : parentOf (updateElement n f d) = parentOf d.
Proof. done. Qed.

Lemma parentOf_attachLast d p c :
  parentOf (attachLast p c d) = <[c := p]> (parentOf d).
Proof. done. Qed.

Lemma parentOf_allocate d tag : parentOf (allocate tag d) = parentOf d.
Proof. done. Qed.

Lemma childNodes_allocate d tag m : childNodes (allocate tag d) m = childNodes d m.
Proof. done. Qed.

Lemma element_attachLast d p c m : element (attachLast p c d) m = element d m.
Proof. done. Qed.

Lemma element_allocate d tag : element (allocate tag d) (nextNode d) = blank tag.
Proof. unfold element. cbn. by rewrite lookup_insert_eq. Qed.

Lemma element_allocate_ne d tag m :
  m <> nextNode d -> element (allocate tag d) m = element d m.
Proof. intros H. unfold element. cbn. by rewrite lookup_insert_ne. Qed.

End ProjectionFacts.

Create Rewrite HintDb dom.
#[local] Hint Rewrite nextNode_updateElement nextNode_attachLast
  nextNode_allocate nextNode_detach parentOf_updateElement
  parentOf_attachLast parentOf_allocate parentOf_detach
  childNodes_updateElement childNodes_allocate element_attachLast
  element_detach : dom.

(** ** The tree after a portal has been installed *)

Section InstallFacts.
Import Placement Dom JsObject PortalManager.
Implicit Types (s : State) (d : Document) (id : string) (z : Z).

Lemma nextNode_installPortal id z d :
  nextNode (installPortal id z d) = S (S (nextNode d)).
Proof. unfold installPortal. by autorewrite with dom. Qed.

Lemma parentOf_installPortal id z d :
  parentOf (installPortal id z d) =
    <[nextNode d := body]> (<[S (nextNode d) := head]> (parentOf d)).
Proof.
  unfold installPortal. autorewrite with dom.
  by rewrite !insert_delete_eq.
Qed.


Lemma childNodes_installPortal_body id z d :
  wfTree d ->
  childNodes (installPortal id z d) body = childNodes d body ++ [nextNode d].
Proof.
  intros [Hh Hb Hp _]. unfold installPortal.
  rewrite childNodes_updateElement, childNodes_attachLast.
  rewrite childNodes_detach_ne; cycle 1.
  { autorewrite with dom.
    rewrite lookup_insert_ne by lia. rewrite lookup_delete_ne by lia.
    intros Hc. apply Hp in Hc. lia. }
  rewrite childNodes_updateElement, childNodes_attachLast_ne by done.
  rewrite childNodes_detach_ne; [by autorewrite with dom|].
  autorewrite with dom. intros Hc. apply Hp in Hc. lia.
Qed.

(** The style element carries the z-index rule of the portal. *)
Lemma element_installPortal_style id z d :
  element (installPortal id z d) (S (nextNode d)) =
    setTextContent (portalRule id z) (blank "style").
Proof.
  unfold installPortal.
  rewrite element_updateElement_ne by lia. autorewrite with dom.
  rewrite element_updateElement_ne by lia. autorewrite with dom.
  rewrite element_updateElement.
  f_equal. unfold element. cbn. by rewrite lookup_insert_eq.
Qed.

(** The portal element, as [_createPortal] leaves it. *)
Lemma element_installPortal_portal id z d :
  element (installPortal id z d) (nextNode d) =
    mkElement "div" ("portal-" +:+ id) "ui-portal" None (portalCssText z)
              {["data-portal-id" := id]}.
Proof.
  unfold installPortal.
  rewrite element_updateElement. autorewrite with dom.
  rewrite element_updateElement. autorewrite with dom.
  rewrite element_updateElement_ne by lia.
  rewrite element_allocate_ne by (cbn; lia).
  rewrite !element_updateElement, element_allocate. done.
Qed.

Lemma element_installPortal_other id z d m :
  m < nextNode d -> element (installPortal id z d) m = element d m.
Proof.
  intros Hm. unfold installPortal.
  rewrite element_updateElement_ne by lia. autorewrite with dom.
  rewrite element_updateElement_ne by lia. autorewrite with dom.
  rewrite element_updateElement_ne by lia.
  rewrite element_allocate_ne by (cbn; lia).
  rewrite !element_updateElement_ne by lia.
  by rewrite element_allocate_ne by lia.
Qed.

Lemma wfTree_installPortal id z d :
  wfTree d -> wfTree (installPortal id z d).
Proof.
  intros [Hh Hb Hp Hac]. split; rewrite ?nextNode_installPortal; try lia.
  - intros c p. rewrite parentOf_installPortal.
    rewrite lookup_insert. case_decide; [intros [= <-]; subst; lia|].
    rewrite lookup_insert. case_decide; [intros [= <-]; subst; lia|].
    intros Hc. apply Hp in Hc. lia.
  - rewrite parentOf_installPortal.
    apply acyclic_insert; [apply acyclic_insert; [done|]|].
    + intros H. apply ancestorOrSelf_parent in H as [Heq | [c Hc]].
      * unfold head in *. lia.
      * apply Hp in Hc. lia.
    + intros H. apply ancestorOrSelf_parent in H as [Heq | [c Hc]].
      * unfold body in *. lia.
      * apply lookup_insert_Some in Hc as [[_ Hc] | [_ Hc]].
        -- unfold head in *. lia.
        -- apply Hp in Hc. lia.
Qed.

Lemma wf_installed id z s :
  wf s -> getProperty (portals s) id = None -> wf (installed id z s).
Proof.
  intros [Hd Hportal Hids Hroots] Hget.
  apply getProperty_None in Hget as [Hown _].
  pose proof (setProperty_fresh_perm (portals s) id (nextNode (document s)) Hown)
    as Hperm.
  destruct Hd as [Hh Hb Hp Hac].
  split; unfold installed; cbn [document portals].
  - apply wfTree_installPortal. by split.
  - intros id' p Hin. rewrite Hperm in Hin.
    rewrite nextNode_installPortal. unfold parentNode.
    rewrite parentOf_installPortal.
    apply elem_of_cons in Hin as [[= -> ->] | Hin].
    + rewrite lookup_insert_eq. unfold head, body in *. split; [lia|].
      split; [lia | done].
    + apply Hportal in Hin as (Hlt & Hne & Hpar).
      rewrite !lookup_insert_ne by lia. split; [lia | done].
  - rewrite Hperm, fmap_cons. apply NoDup_cons. split; [|done].
    by apply ownProperty_None.
  - rewrite Hperm, fmap_cons. apply NoDup_cons. split; [|done].
    cbn. intros Hin. apply list_elem_of_fmap in Hin as ([id' p] & Heq & Hin).
    cbn in Heq. subst p. apply Hportal in Hin. lia.
Qed.

End InstallFacts.

(** ** The tree when [_createPortal] stops half-way *)

Section AbandonFacts.
Import Placement Dom JsObject PortalManager.
Implicit Types (s : State) (d : Document) (id : string) (z : Z).

Lemma nextNode_abandonPortal id z d :
  nextNode (abandonPortal id z d) = S (S (nextNode d)).
Proof.
  unfold abandonPortal, stylePortal. destruct (documentHead d); [|done].
  by autorewrite with dom.
Qed.

Lemma parentOf_stylePortal id z d :
  parentOf (stylePortal id z d) = <[S (nextNode d) := head]> (parentOf d).
Proof.
  unfold stylePortal. autorewrite with dom.
  by rewrite insert_delete_eq.
Qed.

(** At most the new style element has received a parent. *)
Lemma parentOf_abandonPortal id z d :
  parentOf (abandonPortal id z d) = parentOf d \/
  parentOf (abandonPortal id z d) = <[S (nextNode d) := head]> (parentOf d).
Proof.
  unfold abandonPortal. destruct (documentHead d); [right | by left].
  apply parentOf_stylePortal.
Qed.

Lemma parentNode_abandonPortal id z d m :
  m <> S (nextNode d) ->
  parentNode (abandonPortal id z d) m = parentNode d m.
Proof.
  intros Hm. unfold parentNode.
  destruct (parentOf_abandonPortal id z d) as [-> | ->]; [done|].
  by rewrite lookup_insert_ne.
Qed.

Lemma element_abandonPortal id z d m :
  m < nextNode d -> element (abandonPortal id z d) m = element d m.
Proof.
  intros Hm.
  assert (element (preparePortal id z d) m = element d m) as Hprep.
  { unfold preparePortal.
    rewrite element_updateElement_ne by lia.
    rewrite element_allocate_ne by (cbn; lia).
    rewrite !element_updateElement_ne by lia.
    by rewrite element_allocate_ne by lia. }
  unfold abandonPortal, stylePortal. destruct (documentHead d); [|done].
  rewrite element_updateElement_ne by lia. by autorewrite with dom.
Qed.

Lemma childNodes_abandonPortal id z d m :
  wfTree d -> m <> head ->
  childNodes (abandonPortal id z d) m = childNodes d m.
Proof.
  intros [_ _ Hp _] Hm.
  unfold abandonPortal, stylePortal. destruct (documentHead d); [|done].
  rewrite childNodes_updateElement, childNodes_attachLast_ne by done.
  rewrite childNodes_detach_ne; [done|].
  change (parentOf (preparePortal id z d)) with (parentOf d).
  intros Hc. apply Hp in Hc. lia.
Qed.

Lemma wfTree_abandonPortal id z d : wfTree d -> wfTree (abandonPortal id z d).
Proof.
  intros [Hh Hb Hp Hac]. split; rewrite ?nextNode_abandonPortal; try lia.
  - intros c p.
    destruct (parentOf_abandonPortal id z d) as [-> | ->].
    + intros Hc. apply Hp in Hc. lia.
    + rewrite lookup_insert. case_decide; [intros [= <-]; subst; lia|].
      intros Hc. apply Hp in Hc. lia.
  - destruct (parentOf_abandonPortal id z d) as [-> | ->]; [done|].
    apply acyclic_insert; [done|].
    intros H. apply ancestorOrSelf_parent in H as [Heq | [c Hc]].
    + unfold head in *. lia.
    + apply Hp in Hc. lia.
Qed.

(** The existing nodes keep their ancestors. *)
Lemma ancestorOrSelf_abandonPortal id z d p x :
  wfTree d -> x < nextNode d ->
  ancestorOrSelf (parentOf (abandonPortal id z d)) p x <->
  ancestorOrSelf (parentOf d) p x.
Proof.
  intros [_ _ Hp _] Hx.
  assert (~ ancestorOrSelf (parentOf d) (S (nextNode d)) x) as Hfree.
  { intros H. apply ancestorOrSelf_parent in H as [Heq | [c Hc]]; [lia|].
    apply Hp in Hc. lia. }
  destruct (parentOf_abandonPortal id z d) as [-> | ->]; [done|].
  split; [by apply ancestorOrSelf_insert | by apply ancestorOrSelf_insert_back].
Qed.

Lemma contains_abandonPortal id z d p x :
  wfTree d -> x < nextNode d ->
  contains (abandonPortal id z d) p x = contains d p x.
Proof.
  intros Hd Hx.
  pose proof (wfTree_abandonPortal id z d Hd) as Hd'.
  destruct (contains d p x) eqn:E.
  - apply (contains_exact _ _ _ Hd'), ancestorOrSelf_abandonPortal; [done..|].
    by apply (contains_exact _ _ _ Hd).
  - apply contains_false. intros H.
    apply ancestorOrSelf_abandonPortal in H; [|done..].
    apply (contains_exact _ _ _ Hd) in H. congruence.
Qed.

Lemma wf_abandoned id z s : wf s -> wf (abandoned id z s).
Proof.
  intros [Hd Hportal Hids Hroots].
  split; unfold abandoned; cbn [document portals mapDocument]; try done.
  - by apply wfTree_abandonPortal.
  - intros id' p Hin. apply Hportal in Hin as (Hlt & Hne & Hpar).
    rewrite nextNode_abandonPortal, parentNode_abandonPortal by lia.
    split; [lia | done].
Qed.

End AbandonFacts.

(** ** Creating portals *)

Section CreateFacts.
Import Placement Dom JsObject PortalManager.
Implicit Types (s : State) (d : Document) (id : string).

Ltac step := erewrite bind_Return by first
  [ apply gets_run | apply createElement_run | apply update_run ].

Lemma _createPortal_existing s id z v :
  getProperty (portals s) id = Some v -> _createPortal id z s = Return v s.
Proof. intros H. unfold _createPortal, bind, gets. by rewrite H. Qed.

(** The style element is new, so [document.head.appendChild] is not
    refused. *)
Lemma appendChild_style s id z :
  wfTree (document s) ->
  appendChild head (S (nextNode (document s)))
    (mapDocument (preparePortal id z) s) =
  Return (S (nextNode (document s)))
    (mapDocument
       (fun d => attachLast head (S (nextNode d))
                   (detach (S (nextNode d)) (preparePortal id z d))) s).
Proof.
  intros [Hh Hb Hp _]. rewrite appendChild_run; [done|].
  cbn -[contains]. apply contains_childless; cbn.
  - intros c Hc. apply Hp in Hc. lia.
  - unfold head. lia.
Qed.

(** In a well-formed tree in which [document.head] and [document.body] are
    present the body of [_createPortal] runs to its end: both created nodes
    are new, so neither [appendChild] is refused. *)
Lemma _createPortal_new s id z :
  wfTree (document s) -> hostReady (document s) ->
  getProperty (portals s) id = None ->
  _createPortal id z s =
    Return (VElement (nextNode (document s)))
           (installed id (default 9999%Z z) s).
Proof.
  intros Hd Hready Hget. pose proof Hd as [Hh Hb Hp _].
  pose proof Hready as (Hhtml & Hhead & Hbody)%hostReady_parents.
  unfold _createPortal.
  step. rewrite Hget. do 5 step.
  erewrite bind_Return; cycle 1.
  { erewrite bind_Return by apply gets_run.
    replace (documentHead _) with (Some head)
      by (symmetry; exact (proj1 Hready)).
    by apply (appendChild_style s id (default 9999%Z z)). }
  step.
  erewrite bind_Return; cycle 1.
  { erewrite bind_Return by apply gets_run.
    replace (documentBody _) with (Some body); cycle 1.
    { symmetry. rewrite <- (proj2 Hready).
      apply Hp in Hhtml as Hlt1. apply Hp in Hbody as Hlt2.
      apply childOfDocumentElement_ext; unfold parentNode;
        cbn -[detach]; rewrite parentOf_detach; cbn;
        rewrite lookup_insert_ne, lookup_delete_ne by lia; done. }
    apply appendChild_run. cbn -[contains detach]. apply contains_childless.
    - intros c. cbn -[detach]. rewrite parentOf_detach. cbn.
      rewrite lookup_insert. case_decide; [unfold head; intros [=]; lia|].
      rewrite lookup_delete. case_decide; [done|].
      intros Hc. apply Hp in Hc. lia.
    - unfold body. unfold body in Hb. lia. }
  reflexivity.
Qed.

(** When [document.head] or [document.body] is [null] the body of
    [_createPortal] stops with a [TypeError]: after both elements have been
    created, and, when only the body is missing, after the style element has
    been put into the head. *)
Lemma _createPortal_abandoned s id z :
  wfTree (document s) -> ~ hostReady (document s) ->
  getProperty (portals s) id = None ->
  _createPortal id z s = Throw TypeError (abandoned id (default 9999%Z z) s).
Proof.
  intros Hd Hnot Hget. pose proof Hd as [Hh Hb Hp _].
  assert (abandoned id (default 9999%Z z) s =
          mapDocument
            (match documentHead (document s) with
             | Some _ => stylePortal id (default 9999%Z z)
             | None => preparePortal id (default 9999%Z z)
             end) s) as ->.
  { unfold abandoned, abandonPortal, mapDocument.
    by destruct (documentHead (document s)). }
  unfold _createPortal.
  step. rewrite Hget. do 5 step.
  destruct (documentHead (document s)) as [h|] eqn:Hhead.
  - apply childOfDocumentElement_Some in Hhead as Heq. subst h.
    erewrite bind_Return; cycle 1.
    { erewrite bind_Return by apply gets_run.
      replace (documentHead _) with (Some head) by (symmetry; exact Hhead).
      by apply (appendChild_style s id (default 9999%Z z)). }
    step.
    erewrite bind_Throw; [reflexivity|].
    erewrite bind_Return by apply gets_run.
    replace (documentBody _) with (@None node); [reflexivity|].
    symmetry.
    assert (documentBody (document s) = None) as <-.
    { destruct (documentBody (document s)) as [b|] eqn:Hbody; [|done].
      apply childOfDocumentElement_Some in Hbody as Heq. subst b.
      by destruct Hnot. }
    assert (html < nextNode (document s) /\ body < nextNode (document s))
      as [Hlt1 Hlt2].
    { unfold documentHead, childOfDocumentElement in Hhead.
      destruct (documentElement (document s)) as [r|] eqn:Hr; [|done].
      case_decide as Hpar; [|done].
      unfold documentElement in Hr. case_decide as Hroot; [|done].
      apply Hp in Hroot. split; [lia | done]. }
    apply childOfDocumentElement_ext; unfold parentNode;
      cbn -[detach]; rewrite parentOf_detach; cbn;
      rewrite lookup_insert_ne, lookup_delete_ne by lia; done.
  - erewrite bind_Throw; [reflexivity|].
    erewrite bind_Return by apply gets_run.
    by replace (documentHead _) with (@None node) by (symmetry; exact Hhead).
Qed.

End CreateFacts.

(** ** [getPortal] *)

Section GetFacts.
Import Placement Dom JsObject PortalManager.
Implicit Types (s : State) (d : Document) (id : string).

Lemma getPortal_existing s i z v :
  getProperty (portals s) (default "main"%string i) = Some v ->
  getPortal i z s = Return v s.
Proof. intros H. unfold getPortal, bind, gets. by rewrite H. Qed.

Lemma getPortal_new s i z :
  wfTree (document s) -> hostReady (document s) ->
  getProperty (portals s) (default "main"%string i) = None ->
  getPortal i z s =
    Return (VElement (nextNode (document s)))
           (installed (default "main"%string i) (default 9999%Z z) s).
Proof.
  intros Hwf Hready H. unfold getPortal, bind, gets. rewrite H.
  by rewrite _createPortal_new.
Qed.

Lemma getPortal_abandoned s i z :
  wfTree (document s) -> ~ hostReady (document s) ->
  getProperty (portals s) (default "main"%string i) = None ->
  getPortal i z s =
    Throw TypeError
          (abandoned (default "main"%string i) (default 9999%Z z) s).
Proof.
  intros Hwf Hnot H. unfold getPortal, bind, gets. rewrite H.
  by rewrite _createPortal_abandoned.
Qed.

(** The three ways [getPortal] ends in a well-formed tree. *)
Lemma getPortal_outcome s i z :
  wfTree (document s) ->
  (exists v,
     getProperty (portals s) (default "main"%string i) = Some v /\
     getPortal i z s = Return v s) \/
  (getProperty (portals s) (default "main"%string i) = None /\
   hostReady (document s) /\
   getPortal i z s =
     Return (VElement (nextNode (document s)))
            (installed (default "main"%string i) (default 9999%Z z) s)) \/
  (getProperty (portals s) (default "main"%string i) = None /\
   ~ hostReady (document s) /\
   getPortal i z s =
     Throw TypeError
           (abandoned (default "main"%string i) (default 9999%Z z) s)).
Proof.
  intros Hwf.
  destruct (getProperty (portals s) (default "main"%string i)) as [v|] eqn:E.
  - left. exists v. split; [done|]. by apply getPortal_existing.
  - right. destruct (hostReady_decide (document s)) as [Hready|Hnot].
    + left. split; [done|]. split; [done|]. by apply getPortal_new.
    + right. split; [done|]. split; [done|]. by apply getPortal_abandoned.
Qed.

(** A call that returns has found the property or created the portal. *)
Lemma getPortal_Return s i z v s' :
  wfTree (document s) -> getPortal i z s = Return v s' ->
  (getProperty (portals s) (default "main"%string i) = Some v /\ s' = s) \/
  (getProperty (portals s) (default "main"%string i) = None /\
   hostReady (document s) /\
   v = VElement (nextNode (document s)) /\
   s' = installed (default "main"%string i) (default 9999%Z z) s).
Proof.
  intros Hwf Hget.
  destruct (getPortal_outcome s i z Hwf)
    as [(v' & E & Hrun) | [(E & Hready & Hrun) | (E & _ & Hrun)]];
    rewrite Hrun in Hget; [| |done].
  - left. by injection Hget as <- <-.
  - right. by injection Hget as <- <-.
Qed.

(** [getPortal] returns whenever [document.head] and [document.body] are
    present; what it returns is what the property reads as afterwards. *)
Lemma getPortal_returns s i z :
  wfTree (document s) -> hostReady (document s) ->
  exists v s',
    getPortal i z s = Return v s' /\
    getProperty (portals s') (default "main"%string i) = Some v.
Proof.
  intros Hwf Hready.
  destruct (getProperty (portals s) (default "main"%string i)) as [v|] eqn:E.
  - exists v, s. by rewrite (getPortal_existing _ _ _ v).
  - eexists _, _. rewrite getPortal_new by done. split; [done|].
    apply getProperty_None in E as [E _]. cbn.
    by apply getProperty_setProperty.
Qed.

Lemma getPortal_returned s i z v s' :
  wfTree (document s) -> getPortal i z s = Return v s' ->
  getProperty (portals s') (default "main"%string i) = Some v.
Proof.
  intros Hwf Hget.
  apply getPortal_Return in Hget as [[E ->] | (E & _ & -> & ->)]; [done| |done].
  apply getProperty_None in E as [E _]. cbn.
  by apply getProperty_setProperty.
Qed.

Lemma wf_getPortal s i z v s' :
  wf s -> getPortal i z s = Return v s' -> wf s'.
Proof.
  intros Hwf Hget.
  apply getPortal_Return in Hget as [[E ->] | (E & _ & -> & ->)];
    [done | | apply Hwf].
  by apply wf_installed.
Qed.

(** The invariant is kept by [getPortal], whether it returns or throws. *)
Lemma wf_stateOf_getPortal s i z : wf s -> wf (stateOf (getPortal i z s)).
Proof.
  intros Hwf.
  destruct (getPortal_outcome s i z (wf_document _ Hwf))
    as [(v & E & ->) | [(E & _ & ->) | (E & _ & ->)]]; cbn [stateOf].
  - done.
  - by apply wf_installed.
  - by apply wf_abandoned.
Qed.

End GetFacts.

(** ** [addToPortal] and [removeFromPortal] *)

Section MembershipFacts.
Import Placement Dom JsObject PortalManager.
Implicit Types (s : State) (d : Document) (id : string) (e p : node).

Lemma addToPortal_run s e pid p s1 :
  getPortal (Some (default "main"%string pid)) None s = Return (VElement p) s1 ->
  contains (document s1) e p = false ->
  addToPortal e pid s = Return e (attached e p (default "main"%string pid) s1).
Proof.
  intros Hget Hfree. unfold addToPortal.
  erewrite bind_Return by exact Hget.
  erewrite bind_Return by (by apply appendChild_run).
  reflexivity.
Qed.

Lemma addToPortal_cyclic s e pid p s1 :
  getPortal (Some (default "main"%string pid)) None s = Return (VElement p) s1 ->
  contains (document s1) e p = true ->
  addToPortal e pid s = Throw (DOMError HierarchyRequestError) s1.
Proof.
  intros Hget Hcyc. unfold addToPortal.
  erewrite bind_Return by exact Hget.
  by erewrite bind_Throw by (by apply appendChild_cyclic).
Qed.

Lemma findPortal_Some d o e id p :
  findPortal d o e = Some (id, p) -> (id, p) ∈ o /\ contains d p e = true.
Proof.
  unfold findPortal. intros H. apply find_some in H as [Hin Hc].
  split; [by apply list_elem_of_In | done].
Qed.

(** The scan returns the first entry; every entry before it does not contain
    the element. *)
Lemma findPortal_first d o e id p :
  (id, p) ∈ o -> contains d p e = true ->
  (forall id' p', (id', p') ∈ o -> contains d p' e = true -> p' = p) ->
  NoDup o.*2 ->
  findPortal d o e = Some (id, p).
Proof.
  unfold findPortal. induction o as [|[id' p'] o IH]; intros Hin Hc Huniq Hnd.
  - by apply elem_of_nil in Hin.
  - cbn. destruct (contains d p' e) eqn:E.
    + assert (p' = p) as -> by (eapply Huniq; [apply list_elem_of_here | done]).
      apply elem_of_cons in Hin as [Heq | Hin]; [by simplify_eq|].
      rewrite fmap_cons in Hnd. apply NoDup_cons in Hnd as [Hnotin _].
      exfalso. apply Hnotin. apply list_elem_of_fmap. by exists (id, p).
    + apply elem_of_cons in Hin as [Heq | Hin]; [simplify_eq; congruence|].
      rewrite fmap_cons in Hnd. apply NoDup_cons in Hnd as [_ Hnd].
      apply IH; [done | done | | done].
      intros id2 p2 Hin2 Hc2. eapply Huniq; [|done].
      by apply list_elem_of_further.
Qed.

Lemma removeFromPortal_found s e id p :
  findPortal (document s) (portals s) e = Some (id, p) ->
  parentNode (document s) e = Some p ->
  removeFromPortal e s = Return true (removed e id s).
Proof.
  intros Hfind Hpar. unfold removeFromPortal.
  do 2 erewrite bind_Return by apply gets_run.
  rewrite Hfind, Hpar, decide_True by done.
  erewrite bind_Return by (by apply removeChild_run).
  reflexivity.
Qed.

(** An element whose parent is not a registered portal is left alone. *)
Lemma removeFromPortal_not_child s e :
  (forall id p, (id, p) ∈ portals s -> parentNode (document s) e <> Some p) ->
  removeFromPortal e s = Return false s.
Proof.
  intros Hnot. unfold removeFromPortal.
  do 2 erewrite bind_Return by apply gets_run.
  destruct (findPortal _ _ _) as [[id p]|] eqn:Hfind; [|done].
  apply findPortal_Some in Hfind as [Hin _].
  rewrite decide_False; [done|]. by apply Hnot in Hin.
Qed.

Lemma wf_attached s e p id pid :
  wf s -> (id, p) ∈ portals s -> e < nextNode (document s) ->
  contains (document s) e p = false ->
  wf (attached e p pid s).
Proof.
  intros [Hd Hportal Hids Hroots] Hin He Hfree.
  destruct (Hportal _ _ Hin) as (Hp & [Hph _] & _).
  split; unfold attached; cbn [document portals]; try done.
  - apply wfTree_updateElement. by apply wfTree_reparent.
  - intros id' r Hr. apply Hportal in Hr as (Hlt & Hne & Hpar).
    unfold parentNode in *. autorewrite with dom.
    rewrite insert_delete_eq. split; [done|]. split; [done|].
    rewrite lookup_insert. case_decide; [congruence | done].
Qed.

Lemma wf_removed s e pid : wf s -> wf (removed e pid s).
Proof.
  intros [Hd Hportal Hids Hroots].
  split; unfold removed; cbn [document portals]; try done.
  - by apply wfTree_detach.
  - intros id' r Hr. apply Hportal in Hr as (Hlt & Hne & Hpar).
    unfold parentNode in *. autorewrite with dom.
    split; [done|]. split; [done|].
    rewrite lookup_delete. by case_decide.
Qed.

Lemma getPortal_nextNode s i z v s' :
  wf s -> getPortal i z s = Return v s' ->
  nextNode (document s) <= nextNode (document s').
Proof.
  intros Hwf Hget.
  apply getPortal_Return in Hget as [[E ->] | (E & _ & -> & ->)];
    [done | | apply Hwf].
  unfold installed. cbn [document]. rewrite nextNode_installPortal. lia.
Qed.

Lemma getPortal_registered s i z p s' :
  wf s -> getPortal i z s = Return (VElement p) s' ->
  (default "main"%string i, p) ∈ portals s'.
Proof.
  intros Hwf Hget.
  apply getPortal_returned in Hget as Hprop; [|apply Hwf].
  unfold getProperty in Hprop.
  destruct (ownProperty _ _) as [n|] eqn:E.
  - injection Hprop as ->. by apply ownProperty_Some.
  - by destruct (inherited _).
Qed.

(** When [getPortal] throws, so does [addToPortal]. *)
Lemma addToPortal_abandoned s e pid err s1 :
  getPortal (Some (default "main"%string pid)) None s = Throw err s1 ->
  addToPortal e pid s = Throw err s1.
Proof.
  intros Hget. unfold addToPortal. by erewrite bind_Throw by exact Hget.
Qed.

(** The invariant is kept by [addToPortal], whether it returns or throws. *)
Lemma wf_addToPortal s e pid :
  wf s -> e < nextNode (document s) -> wf (stateOf (addToPortal e pid s)).
Proof.
  intros Hwf He.
  pose proof (wf_stateOf_getPortal s (Some (default "main"%string pid)) None
                Hwf) as Hwf1.
  destruct (getPortal (Some (default "main"%string pid)) None s)
    as [v s1|err s1] eqn:Hget; cbn [stateOf] in Hwf1.
  - destruct v as [p|name].
    + destruct (contains (document s1) e p) eqn:Hc.
      * by rewrite (addToPortal_cyclic _ _ _ _ _ Hget Hc).
      * rewrite (addToPortal_run _ _ _ _ _ Hget Hc).
        eapply wf_attached;
          [done | exact (getPortal_registered _ _ _ _ _ Hwf Hget) | | done].
        pose proof (getPortal_nextNode _ _ _ _ _ Hwf Hget). lia.
    + unfold addToPortal. erewrite bind_Return by exact Hget.
      by cbn.
  - by rewrite (addToPortal_abandoned _ _ _ _ _ Hget).
Qed.

Lemma wf_removeFromPortal s e b s' :
  wf s -> removeFromPortal e s = Return b s' -> wf s'.
Proof.
  intros Hwf. unfold removeFromPortal.
  do 2 erewrite bind_Return by apply gets_run.
  destruct (findPortal _ _ _) as [[id p]|] eqn:Hfind; [|by intros [= _ <-]].
  case_decide as Hpar; [|by intros [= _ <-]].
  erewrite bind_Return by (by apply removeChild_run).
  intros [= _ <-]. by apply wf_removed.
Qed.

End MembershipFacts.

(** ** [destroy], [positionElement] and the constructor *)

Section LifecycleFacts.
Import Placement Dom JsObject PortalManager.
Implicit Types (s : State) (d : Document) (id : string) (e p : node).

Lemma removePortals_run entries s :
  removePortals entries s = Return tt (mapDocument (detachAll entries) s).
Proof.
  revert s. induction entries as [|[id p] rest IH]; intros s.
  - by destruct s.
  - cbn [removePortals].
    erewrite bind_Return by apply gets_run.
    erewrite (bind_Return _ _ _ tt (mapDocument (detach p) s)).
    + by rewrite IH.
    + destruct (parentNode (document s) p) as [q|] eqn:Hq.
      * by erewrite bind_Return by (by apply removeChild_run).
      * unfold ret, mapDocument. rewrite detach_orphan by done.
        by destruct s.
Qed.

Lemma destroy_run s :
  destroy s =
    Return tt (mkState (detachAll (portals s) (document s)) (layout s) []
                       (emitted s)).
Proof.
  unfold destroy. erewrite bind_Return by apply gets_run.
  by erewrite bind_Return by apply removePortals_run.
Qed.

Lemma detachAll_cons id p rest d :
  detachAll ((id, p) :: rest) d = detachAll rest (detach p d).
Proof. done. Qed.

Lemma nextNode_detachAll entries d : nextNode (detachAll entries d) = nextNode d.
Proof.
  revert d. induction entries as [|[id p] rest IH]; intros d; [done|].
  by rewrite detachAll_cons, IH, nextNode_detach.
Qed.

Lemma elementOf_detachAll entries d :
  elementOf (detachAll entries d) = elementOf d.
Proof.
  revert d. induction entries as [|[id p] rest IH]; intros d; [done|].
  by rewrite detachAll_cons, IH, elementOf_detach.
Qed.

(** The loop only ever clears [parentNode] pointers. *)
Lemma parentOf_detachAll_Some entries d x q :
  parentOf (detachAll entries d) !! x = Some q -> parentOf d !! x = Some q.
Proof.
  revert d. induction entries as [|[id p] rest IH]; intros d; [done|].
  rewrite detachAll_cons. intros H. apply IH in H.
  rewrite parentOf_detach, lookup_delete in H. by case_decide.
Qed.

Lemma parentOf_detachAll_None entries d x :
  parentOf d !! x = None -> parentOf (detachAll entries d) !! x = None.
Proof.
  intros H. destruct (parentOf (detachAll entries d) !! x) eqn:E; [|done].
  apply parentOf_detachAll_Some in E. congruence.
Qed.

Lemma parentOf_detachAll_elem_of entries d id p :
  (id, p) ∈ entries -> parentOf (detachAll entries d) !! p = None.
Proof.
  revert d. induction entries as [|[id' p'] rest IH]; intros d Hin.
  - by apply elem_of_nil in Hin.
  - rewrite detachAll_cons. apply elem_of_cons in Hin as [Heq | Hin]; [|auto].
    simplify_eq. apply parentOf_detachAll_None.
    by rewrite parentOf_detach, lookup_delete_eq.
Qed.

Lemma parentOf_detachAll_other entries d x :
  x ∉ entries.*2 -> parentOf (detachAll entries d) !! x = parentOf d !! x.
Proof.
  revert d. induction entries as [|[id' p'] rest IH]; intros d Hx; [done|].
  rewrite fmap_cons, not_elem_of_cons in Hx. destruct Hx as [Hne Hx].
  rewrite detachAll_cons, IH by done.
  by rewrite parentOf_detach, lookup_delete_ne.
Qed.


Lemma wfTree_detachAll entries d :
  wfTree d -> wfTree (detachAll entries d).
Proof.
  revert d. induction entries as [|[id p] rest IH]; intros d Hwf; [done|].
  rewrite detachAll_cons. by apply IH, wfTree_detach.
Qed.

Lemma wf_destroy s s' : wf s -> destroy s = Return tt s' -> wf s'.
Proof.
  intros [Hd _ _ _]. rewrite destroy_run. intros [= <-].
  split; cbn [document portals].
  - by apply wfTree_detachAll.
  - intros id p Hin. by apply elem_of_nil in Hin.
  - apply NoDup_nil_2.
  - apply NoDup_nil_2.
Qed.

(** [positionElement] writes the clamped coordinates into the transform and
    hands over to [addToPortal]. *)
Lemma positionElement_run e r o s :
  positionElement e r o s =
    addToPortal e (Some (default "main"%string (portalId o)))
      (mapDocument
         (positioned e
            (translation (default "bottom"%string (placement o))
               (boundingClientRect (layout s (document s)) r)
               (offsetSize (layout s (document s)) e)
               (default 5%Q (margin o))
               (window (layout s (document s)))))
         s).
Proof. reflexivity. Qed.

Lemma wf_mapDocument_positioned e xy s :
  wf s -> wf (mapDocument (positioned e xy) s).
Proof.
  intros [Hd Hp Hi Hr]. split; try done.
  cbn. by repeat apply wfTree_updateElement.
Qed.

Lemma wf_positionElement s e r o :
  wf s -> e < nextNode (document s) -> wf (stateOf (positionElement e r o s)).
Proof.
  intros Hwf He. rewrite positionElement_run.
  apply wf_addToPortal; [by apply wf_mapDocument_positioned | done].
Qed.

Lemma wf_initial d l : wfTree d -> wf (initial d l).
Proof.
  intros Hd. split; cbn; try done.
  - intros id p Hin. by apply elem_of_nil in Hin.
  - apply NoDup_nil_2.
  - apply NoDup_nil_2.
Qed.

Lemma construct_run d l :
  wfDocument d ->
  construct d l = Return tt (installed "main" 9999 (initial d l)).
Proof.
  intros [Hd Hready]. unfold construct.
  by erewrite bind_Return by (by apply _createPortal_new).
Qed.

Lemma wf_construct d l s :
  wfDocument d -> construct d l = Return tt s -> wf s.
Proof.
  intros Hd. rewrite construct_run by done. intros [= <-].
  apply wf_installed; [apply wf_initial, Hd | done].
Qed.

End LifecycleFacts.

(** ** The invariant holds in every reachable state *)

Section ReachableFacts.
Import Placement Dom JsObject PortalManager.

Lemma wf_perform c s : wf s -> created c s -> wf (perform c s).
Proof.
  intros Hwf Hc. destruct c as [i z|e pid|e|e r o|]; cbn [perform created] in *.
  - by apply wf_stateOf_getPortal.
  - by apply wf_addToPortal.
  - destruct (removeFromPortal e s) as [b s'|err s'] eqn:Hrun.
    + by eapply wf_removeFromPortal.
    + exfalso. revert Hrun. unfold removeFromPortal.
      do 2 erewrite bind_Return by apply gets_run.
      destruct (findPortal _ _ _) as [[id p]|]; [|done].
      case_decide; [|done].
      by erewrite bind_Return by (by apply removeChild_run).
  - by apply wf_positionElement.
  - rewrite destroy_run. eapply wf_destroy; [done | apply destroy_run].
Qed.

Lemma reachable_wf s : reachable s -> wf s.
Proof.
  induction 1 as [d l Hd|s c _ IH Hc].
  - rewrite construct_run by done. by eapply wf_construct, construct_run.
  - by apply wf_perform.
Qed.

End ReachableFacts.

(** ** The sample page *)

Section SampleFacts.
Import Placement Dom JsObject PortalManager Sample.

Lemma wfTree_page : wfTree page.
Proof.
  split; [unfold head; cbn; lia | unfold body; cbn; lia | |].
  - intros c p H. unfold page in H. cbn [parentOf] in H.
    change (nextNode page) with 7.
    repeat (apply lookup_insert_Some in H as [[<- <-] | [_ H]];
            [unfold head, body, html, documentNode, button, tooltip, label;
             lia |]).
    by rewrite lookup_empty in H.
  - intros x q Hxq Hcycle.
    assert (inclusiveAncestor 7 (parentOf page) x q = true) as Hwalk.
    { apply inclusiveAncestor_complete; [|done].
      unfold page in Hxq. cbn [parentOf] in Hxq.
      repeat (apply lookup_insert_Some in Hxq as [[<- <-] | [_ Hxq]];
              [vm_compute; reflexivity |]).
      by rewrite lookup_empty in Hxq. }
    unfold page in Hxq. cbn [parentOf] in Hxq.
    repeat (apply lookup_insert_Some in Hxq as [[<- <-] | [_ Hxq]];
            [vm_compute in Hwalk; discriminate |]).
    by rewrite lookup_empty in Hxq.
Qed.

Lemma hostReady_page : hostReady page.
Proof. split; vm_compute; reflexivity. Qed.

Lemma wfDocument_page : wfDocument page.
Proof. split; [apply wfTree_page | apply hostReady_page]. Qed.

Lemma fresh_run : construct page engine = Return tt fresh.
Proof. vm_compute. reflexivity. Qed.

Lemma wf_fresh : wf fresh.
Proof. exact (wf_construct _ _ _ wfDocument_page fresh_run). Qed.

Lemma hostReady_fresh : hostReady (document fresh).
Proof. split; vm_compute; reflexivity. Qed.

Lemma wf_nested : wf nested.
Proof.
  unfold nested, nestPortal.
  assert (getPortal (Some "tooltips"%string) (Some 10000%Z) fresh =
          Return (VElement 9) (installed "tooltips" 10000 fresh)) as Hget.
  { apply getPortal_new; [apply wf_fresh | apply hostReady_fresh | done]. }
  erewrite bind_Return by exact Hget.
  apply wf_addToPortal; [|vm_compute; lia].
  apply wf_installed; [apply wf_fresh | done].
Qed.

Lemma wf_rebuilt : wf rebuilt.
Proof.
  unfold rebuilt.
  erewrite bind_Return by apply destroy_run.
  apply wf_stateOf_getPortal.
  eapply wf_destroy; [apply wf_fresh | apply destroy_run].
Qed.

Lemma wf_mounted : wf mounted.
Proof. apply wf_addToPortal; [apply wf_fresh | vm_compute; lia]. Qed.

End SampleFacts.

(** ** The model at work on the sample page *)

Section Examples.
Import Placement Dom JsObject PortalManager Sample.

Example arrayIndex_canonical :
  arrayIndex "0" = Some 0%N /\ arrayIndex "10" = Some 10%N /\
  arrayIndex "4294967294" = Some 4294967294%N /\
  arrayIndex "4294967295" = None /\ arrayIndex "01" = None /\
  arrayIndex "1.5" = None /\ arrayIndex "" = None /\ arrayIndex "main" = None.
Proof. repeat split; reflexivity. Qed.

(** Numeric identifiers come first in [Object.entries], whenever they were
    created. *)
Example entries_order :
  defineProperty
    (defineProperty (defineProperty [("main", 2)] "tooltips" 4) "10" 6) "9" 8 =
  [("9", 8); ("10", 6); ("main", 2); ("tooltips", 4)].
Proof. reflexivity. Qed.

(** An identifier that names a member of [Object.prototype] is never
    created: the inherited member is returned, and [addToPortal] fails on
    it. *)
Example getPortal_inherited :
  getPortal (Some "constructor") None fresh =
    Return (VInherited "constructor") fresh /\
  addToPortal tooltip (Some "toString") fresh = Throw TypeError fresh.
Proof. split; vm_compute; reflexivity. Qed.

(** The body cannot be moved into the portal it contains. *)
Example addToPortal_body :
  addToPortal body (Some "main") fresh =
    Throw (DOMError HierarchyRequestError) fresh.
Proof. vm_compute. reflexivity. Qed.

(** [positionElement(tooltip, button)] with the default options: the tooltip
    ends up in the main portal, translated to (110, 125). *)
Example positionElement_sample :
  exists s xy,
    positionElement tooltip button noOptions fresh = Return tooltip s /\
    parentNode (document s) tooltip = Some 7 /\
    transform (style (element (document s) tooltip)) = Some xy /\
    sameCoordinates xy (110, 125)%Q /\
    pointerEvents (style (element (document s) tooltip)) = Some "auto"%string /\
    emitted s = [PortalCreated "main" 7; ElementAdded tooltip "main"].
Proof.
  eexists _, _. split; [vm_compute; reflexivity|].
  repeat split; vm_compute; reflexivity.
Qed.

(** [destroy] on the freshly constructed manager, twice. *)
Example destroy_sample :
  exists s,
    destroy fresh = Return tt s /\ destroy s = Return tt s /\
    portals s = [] /\ parentNode (document s) 7 = None /\
    childNodes (document s) body = [button] /\
    childNodes (document s) head = [8].
Proof.
  eexists. split; [vm_compute; reflexivity|].
  repeat split; vm_compute; reflexivity.
Qed.

(** Once the head has been moved into a portal, [document.head] is [null]:
    creating another portal stops with a [TypeError] after its two elements
    have been created, and registers nothing. *)
Example getPortal_without_head :
  exists s,
    addToPortal head (Some "main") fresh = Return head s /\
    documentHead (document s) = None /\
    getPortal (Some "tooltips") None s =
      Throw TypeError (abandoned "tooltips" 9999 s) /\
    portals (abandoned "tooltips" 9999 s) = [("main"%string, 7)] /\
    nextNode (document (abandoned "tooltips" 9999 s)) = 11 /\
    parentNode (document (abandoned "tooltips" 9999 s)) 9 = None /\
    parentNode (document (abandoned "tooltips" 9999 s)) 10 = None.
Proof.
  eexists. split; [vm_compute; reflexivity|].
  repeat split; vm_compute; reflexivity.
Qed.

End Examples.

(** ** Placement: the claims *)

Section PlacementClaims.
Import Placement Dom JsObject PortalManager.

(** C1.  For each of the eight modes the coordinates computed by the
    [switch] are those of the placement table, centre alignment being the
    anchor's midpoint minus half the element's dimension.  For the anchor
    [{left:100, top:100, width:50, height:20}], an element of 30 by 10,
    margin 5 and a viewport of 1000 by 1000 the coordinates, ideal and final,
    are (110, 125) for "bottom", (100, 85) for "top-left" and (155, 105) for
    "right". *)
Theorem idealPosition_table :
  (forall m anchor el margin,
     idealPosition anchor el margin (modeName m) =
       (tableX m anchor el margin, tableY m anchor el margin)) /\
  (let anchor := domRect 100 100 50 20 in
   let el := mkSize 30 10 in
   let vp := mkViewport 1000 1000 in
   sameCoordinates (idealPosition anchor el 5 "bottom") (110, 125)%Q /\
   sameCoordinates (idealPosition anchor el 5 "top-left") (100, 85)%Q /\
   sameCoordinates (idealPosition anchor el 5 "right") (155, 105)%Q /\
   sameCoordinates (translation "bottom" anchor el 5 vp) (110, 125)%Q /\
   sameCoordinates (translation "top-left" anchor el 5 vp) (100, 85)%Q /\
   sameCoordinates (translation "right" anchor el 5 vp) (155, 105)%Q).
Proof.
  split.
  - intros m anchor el margin. by destruct m.
  - repeat split; vm_compute; reflexivity.
Qed.

(** C2.  The four adjustments run after the ideal coordinates are known, in
    the order x against zero, y against zero, x against the right edge, y
    against the bottom edge, and each axis is clamped on its own.  An element
    wider (taller) than the viewport therefore ends at the negative
    coordinate [viewport - element] on that axis.  For the anchor at the
    origin, mode "top-left" has a negative ideal y and yields (0, 0). *)
Theorem clampToViewport_order el vp x y :
  clampToViewport el vp (x, y) = fold_left (applyRule el vp) clampRules (x, y) /\
  clampToViewport el vp (x, y) =
    (clampAxis x (offsetWidth el) (innerWidth vp),
     clampAxis y (offsetHeight el) (innerHeight vp)) /\
  ((innerWidth vp < offsetWidth el)%Q ->
   fst (clampToViewport el vp (x, y)) = (innerWidth vp - offsetWidth el)%Q /\
   (fst (clampToViewport el vp (x, y)) < 0)%Q) /\
  ((innerHeight vp < offsetHeight el)%Q ->
   snd (clampToViewport el vp (x, y)) = (innerHeight vp - offsetHeight el)%Q /\
   (snd (clampToViewport el vp (x, y)) < 0)%Q) /\
  (let anchor := domRect 0 0 50 20 in
   let el := mkSize 30 10 in
   let vp := mkViewport 1000 1000 in
   (snd (idealPosition anchor el 5 "top-left") < 0)%Q /\
   sameCoordinates (translation "top-left" anchor el 5 vp) (0, 0)%Q).
Proof.
  split; [by rewrite clampRules_axes|].
  split; [apply clampToViewport_axes|].
  rewrite clampToViewport_axes. cbn [fst snd].
  split; [|split].
  - intros Hbig. rewrite clampAxis_oversized by done. split; [done | lra].
  - intros Hbig. rewrite clampAxis_oversized by done. split; [done | lra].
  - split; [vm_compute; reflexivity|]. split; vm_compute; reflexivity.
Qed.

Lemma clampToViewport_order_witness :
  (innerWidth (mkViewport 1000 800) < offsetWidth (mkSize 1200 900))%Q /\
  (innerHeight (mkViewport 1000 800) < offsetHeight (mkSize 1200 900))%Q /\
  (fst (clampToViewport (mkSize 1200 900) (mkViewport 1000 800) (40, 60)%Q) < 0)%Q /\
  (snd (clampToViewport (mkSize 1200 900) (mkViewport 1000 800) (40, 60)%Q) < 0)%Q.
Proof.
  assert ((innerWidth (mkViewport 1000 800) < offsetWidth (mkSize 1200 900))%Q)
    as Hw by reflexivity.
  assert ((innerHeight (mkViewport 1000 800) < offsetHeight (mkSize 1200 900))%Q)
    as Hh by reflexivity.
  destruct (clampToViewport_order (mkSize 1200 900) (mkViewport 1000 800) 40 60)
    as (_ & _ & Hx & Hy & _).
  split; [exact Hw|]. split; [exact Hh|].
  split; [exact (proj2 (Hx Hw)) | exact (proj2 (Hy Hh))].
Defined.

(** C6.  A placement string that is not one of the eight modes is not an
    error: the [switch] takes its [default] branch, which gives the
    coordinates of "bottom-left" ([rect.left], [rect.bottom + margin]), and
    the whole call behaves as it does for "bottom-left". *)
Theorem unrecognized_placement_defaults placement anchor el margin :
  placement ∉ modeNames ->
  idealPosition anchor el margin placement =
    (left anchor, (bottom anchor + margin)%Q) /\
  idealPosition anchor el margin placement =
    idealPosition anchor el margin "bottom-left" /\
  (forall vp,
     translation placement anchor el margin vp =
       translation "bottom-left" anchor el margin vp) /\
  (forall element reference pid mg s,
     positionElement element reference (mkOptions (Some placement) pid mg) s =
       positionElement element reference
         (mkOptions (Some "bottom-left"%string) pid mg) s).
Proof.
  intros H.
  assert (forall r e mg, idealPosition r e mg placement =
                         idealPosition r e mg "bottom-left") as Heq.
  { intros r e mg. by rewrite idealPosition_default. }
  split; [by apply idealPosition_default|].
  split; [apply Heq|].
  split.
  - intros vp. unfold translation. by rewrite Heq.
  - intros element reference pid mg s. rewrite !positionElement_run.
    cbn [PortalManager.placement PortalManager.portalId PortalManager.margin default].
    unfold translation. by rewrite Heq.
Qed.

Lemma unrecognized_placement_defaults_witness :
  idealPosition (domRect 100 100 50 20) (mkSize 30 10) 5 "center" =
    (left (domRect 100 100 50 20), (bottom (domRect 100 100 50 20) + 5)%Q).
Proof.
  refine (proj1 (unrecognized_placement_defaults "center"
                   (domRect 100 100 50 20) (mkSize 30 10) 5 _)).
  unfold modeNames. cbn.
  repeat (apply not_elem_of_cons; split; [discriminate|]).
  apply not_elem_of_nil.
Defined.

End PlacementClaims.

(** ** Child lists under [destroy] *)

Section DetachFacts.
Import Placement Dom JsObject PortalManager.
Implicit Types (d : Document) (p q c x n : node).

Lemma withoutChild_spec c x l : x ∈ withoutChild c l <-> x ∈ l /\ x <> c.
Proof.
  unfold withoutChild. rewrite !list_elem_of_In, filter_In.
  destruct (Nat.eqb_spec x c); cbn; split; intros []; split; done.
Qed.

Lemma childNodes_detach_self d p q :
  parentOf d !! p = Some q -> p ∉ childNodes (detach p d) q.
Proof.
  intros H. unfold detach. rewrite H. unfold childNodes at 1. cbn.
  rewrite lookup_insert_eq. cbn. rewrite withoutChild_spec. by intros [_ ?].
Qed.

Lemma childNodes_detach_notin d c x n :
  x ∉ childNodes d n -> x ∉ childNodes (detach c d) n.
Proof.
  intros Hx. unfold detach. destruct (parentOf d !! c) as [q|]; [|done].
  unfold childNodes at 1. cbn. rewrite lookup_insert. case_decide; [|done].
  subst q. cbn. rewrite withoutChild_spec. by intros [? _].
Qed.

Lemma childNodes_detachAll_notin entries d x n :
  x ∉ childNodes d n -> x ∉ childNodes (detachAll entries d) n.
Proof.
  revert d. induction entries as [|[id p] rest IH]; intros d Hx; [done|].
  rewrite detachAll_cons. by apply IH, childNodes_detach_notin.
Qed.

(** A portal that the loop visits is gone from the child list of the parent
    it had. *)
Lemma childNodes_detachAll_removed entries d id p q :
  (id, p) ∈ entries -> parentOf d !! p = Some q ->
  p ∉ childNodes (detachAll entries d) q.
Proof.
  revert d. induction entries as [|[id' p'] rest IH]; intros d Hin Hq.
  - by apply elem_of_nil in Hin.
  - rewrite detachAll_cons. destruct (decide (p' = p)) as [->|Hne].
    + by apply childNodes_detachAll_notin, childNodes_detach_self.
    + apply elem_of_cons in Hin as [Heq | Hin]; [by simplify_eq|].
      apply IH; [done|]. by rewrite parentOf_detach, lookup_delete_ne.
Qed.

End DetachFacts.

(** ** The registry: the claims *)

Section RegistryClaims.
Import Placement Dom JsObject PortalManager Sample.

(** C3, as stated, fails.  For an identifier that names a member of
    [Object.prototype], [getPortal] returns that member, which is no portal,
    and registers nothing; and once the head has been moved into a portal,
    [document.head] is [null] and [getPortal] of a new identifier throws. *)
Lemma getPortal_prototype_member :
  getPortal (Some "constructor"%string) (Some 1%Z) fresh =
    Return (VInherited "constructor") fresh /\
  getPortal (Some "constructor"%string) (Some 2%Z) fresh =
    Return (VInherited "constructor") fresh /\
  portals fresh = [("main"%string, 7)] /\
  exists s,
    addToPortal head (Some "main"%string) fresh = Return head s /\
    getPortal (Some "tooltips"%string) (Some 1%Z) s =
      Throw TypeError (abandoned "tooltips" 1 s) /\
    portals (abandoned "tooltips" 1 s) = [("main"%string, 7)].
Proof.
  split; [vm_compute; reflexivity|]. split; [vm_compute; reflexivity|].
  split; [vm_compute; reflexivity|].
  eexists. split; [vm_compute; reflexivity|].
  split; vm_compute; reflexivity.
Qed.

(** C3, amended.  Whenever [getPortal] returns, a second call with the same
    identifier returns the same object, constructs nothing and leaves the
    state as it is, whatever z-index it is given, and no identifier is
    registered twice.  For an identifier that does not name a member of
    [Object.prototype] the first call does return, provided [document.head]
    and [document.body] are present or the identifier is registered already;
    the object is then the one portal registered under the identifier. *)
Theorem getPortal_idempotent s i p1 p2 :
  wf s ->
  (forall v s1,
     getPortal i p1 s = Return v s1 ->
     getPortal i p2 s1 = Return v s1 /\ NoDup (portals s1).*1 /\ wf s1) /\
  (inherited (default "main"%string i) = false ->
   hostReady (document s) \/
   (exists n, (default "main"%string i, n) ∈ portals s) ->
   exists n s1,
     getPortal i p1 s = Return (VElement n) s1 /\
     getPortal i p2 s1 = Return (VElement n) s1 /\
     (default "main"%string i, n) ∈ portals s1 /\
     (forall m, (default "main"%string i, m) ∈ portals s1 -> m = n)).
Proof.
  intros Hwf.
  assert (forall v s1,
            getPortal i p1 s = Return v s1 ->
            getPortal i p2 s1 = Return v s1 /\ wf s1) as Hagain.
  { intros v s1 Hget.
    split; [|by eapply wf_getPortal].
    eapply getPortal_existing, getPortal_returned; [apply Hwf | done]. }
  split.
  { intros v s1 Hget. destruct (Hagain v s1 Hget) as [H2 Hwf1].
    split; [done|]. split; [apply Hwf1 | done]. }
  intros Hown Hcan.
  assert (exists v s1, getPortal i p1 s = Return v s1 /\
                       getProperty (portals s1) (default "main"%string i) =
                         Some v) as (v & s1 & Hget & Hprop).
  { destruct Hcan as [Hready | [n Hin]].
    - by apply getPortal_returns; [apply Hwf|].
    - exists (VElement n), s.
      assert (getProperty (portals s) (default "main"%string i) =
              Some (VElement n)) as Hn.
      { apply getProperty_own, ownProperty_elem_of; [apply Hwf | done]. }
      split; [by apply getPortal_existing | done]. }
  destruct (Hagain v s1 Hget) as [H2 Hwf1].
  unfold getProperty in Hprop.
  destruct (ownProperty (portals s1) (default "main"%string i)) as [n|] eqn:E;
    [|by rewrite Hown in Hprop].
  injection Hprop as <-. exists n, s1.
  split; [done|]. split; [done|]. split; [by apply ownProperty_Some|].
  intros m Hm. apply (ownProperty_elem_of _ _ _ (wf_ids _ Hwf1)) in Hm.
  congruence.
Qed.

Lemma getPortal_idempotent_witness :
  exists n s1,
    getPortal (Some "tooltips"%string) (Some 10000%Z) fresh =
      Return (VElement n) s1 /\
    getPortal (Some "tooltips"%string) (Some 5%Z) s1 = Return (VElement n) s1 /\
    ("tooltips"%string, n) ∈ portals s1 /\
    (forall m, ("tooltips"%string, m) ∈ portals s1 -> m = n).
Proof.
  apply (getPortal_idempotent fresh (Some "tooltips"%string)
           (Some 10000%Z) (Some 5%Z) wf_fresh).
  - reflexivity.
  - left. split; vm_compute; reflexivity.
Defined.

(** C7.  The constructor creates the portal "main" with z-index 9999, in the
    inline style and in the style rule, and attaches it to the body; nothing
    else is registered.  [getPortal("main")] and [getPortal()] then return
    that portal and leave the state, and so the emitted signals, as they
    are. *)
Theorem constructor_creates_main d l :
  wfDocument d ->
  let main := nextNode d in
  exists s,
    construct d l = Return tt s /\
    portals s = [("main"%string, main)] /\
    parentNode (document s) main = Some body /\
    zIndex (style (element (document s) main)) = Some 9999%Z /\
    parentNode (document s) (S main) = Some head /\
    textContent (element (document s) (S main)) =
      Some (portalRule "main" 9999) /\
    emitted s = [PortalCreated "main" main] /\
    forall z,
      getPortal (Some "main"%string) z s = Return (VElement main) s /\
      getPortal None z s = Return (VElement main) s.
Proof.
  intros Hd main. eexists. split; [by apply construct_run|].
  unfold installed, initial. cbn [document portals emitted layout].
  split; [done|].
  unfold parentNode. rewrite parentOf_installPortal.
  split; [by rewrite lookup_insert_eq|].
  split; [by rewrite element_installPortal_portal|].
  split.
  { rewrite lookup_insert_ne by lia. by rewrite lookup_insert_eq. }
  split; [by rewrite element_installPortal_style|].
  split; [done|].
  intros z. split; by apply getPortal_existing.
Qed.

Lemma constructor_creates_main_witness :
  exists s,
    construct page engine = Return tt s /\
    portals s = [("main"%string, 7)] /\
    parentNode (document s) 7 = Some body /\
    zIndex (style (element (document s) 7)) = Some 9999%Z /\
    parentNode (document s) 8 = Some head /\
    textContent (element (document s) 8) = Some (portalRule "main" 9999) /\
    emitted s = [PortalCreated "main" 7] /\
    forall z,
      getPortal (Some "main"%string) z s = Return (VElement 7) s /\
      getPortal None z s = Return (VElement 7) s.
Proof.
  exact (constructor_creates_main page engine wfDocument_page).
Defined.

(** C8.  [destroy] always returns.  Afterwards every portal that was
    registered has no parent and is no longer among the children of the
    parent it had, and nothing is registered; nothing is emitted.  A second
    [destroy] returns as well and leaves the state as it is. *)
Theorem destroy_detaches_all s :
  exists s',
    destroy s = Return tt s' /\
    portals s' = [] /\
    (forall id p,
       (id, p) ∈ portals s ->
       parentNode (document s') p = None /\
       forall q, parentNode (document s) p = Some q ->
                 p ∉ childNodes (document s') q) /\
    emitted s' = emitted s /\
    destroy s' = Return tt s'.
Proof.
  eexists. split; [apply destroy_run|].
  cbn [document portals emitted].
  split; [done|]. split; [|split; [done|]].
  - intros id p Hin. split.
    + by eapply parentOf_detachAll_elem_of.
    + intros q Hq. by eapply childNodes_detachAll_removed.
  - by rewrite destroy_run.
Qed.



End RegistryClaims.

(** ** Ancestors across the manager's steps *)

Section AncestorFacts.
Import Placement Dom JsObject PortalManager.
Implicit Types (s : State) (d : Document) (p q x e m : node).

(** A node that has not been created yet is no one's ancestor. *)
Lemma ancestorOrSelf_uncreated d k x :
  wfTree d -> nextNode d <= k -> x < nextNode d ->
  ~ ancestorOrSelf (parentOf d) k x.
Proof.
  intros [_ _ Hp _] Hk Hx H.
  apply ancestorOrSelf_parent in H as [-> | [c Hc]]; [lia|].
  apply Hp in Hc. lia.
Qed.

(** Installing a portal leaves the ancestors of the existing nodes as they
    were. *)
Lemma ancestorOrSelf_installPortal id z d p x :
  wfTree d -> x < nextNode d ->
  ancestorOrSelf (parentOf (installPortal id z d)) p x ->
  ancestorOrSelf (parentOf d) p x.
Proof.
  intros Hd Hx. rewrite parentOf_installPortal. intros H.
  apply ancestorOrSelf_insert in H.
  - apply ancestorOrSelf_insert in H; [done|].
    refine (ancestorOrSelf_uncreated _ _ _ Hd _ Hx). lia.
  - intros Hm. apply ancestorOrSelf_parent in Hm as [Heq | [c Hc]]; [lia|].
    apply lookup_insert_Some in Hc as [[_ Hc] | [_ Hc]].
    + pose proof (wf_head _ Hd). unfold head in *. lia.
    + apply (wf_parent _ Hd) in Hc. lia.
Qed.

End AncestorFacts.

(** ** Membership: the claims *)

Section MembershipClaims.
Import Placement Dom JsObject PortalManager Sample.

(** C5.  When the element's parent is not a registered portal, whether the
    element is detached, lives elsewhere in the page or sits two or more
    levels below a portal, [removeFromPortal] returns [false]; it does not
    throw, and the tree, the registry and the emitted signals are as
    before. *)
Theorem removeFromPortal_only_direct_children s e :
  (forall id p, (id, p) ∈ portals s -> parentNode (document s) e <> Some p) ->
  removeFromPortal e s = Return false s.
Proof.
  intros Hnot. unfold removeFromPortal.
  do 2 erewrite bind_Return by apply gets_run.
  destruct (findPortal (document s) (portals s) e) as [[id p]|] eqn:Hfind.
  - apply findPortal_Some in Hfind as [Hin _].
    destruct (decide (parentNode (document s) e = Some p)) as [Hpar|]; [|done].
    by apply Hnot in Hin.
  - done.
Qed.

Lemma removeFromPortal_only_direct_children_witness :
  parentNode (document mounted) tooltip = Some 7 /\
  parentNode (document mounted) label = Some tooltip /\
  contains (document mounted) 7 label = true /\
  removeFromPortal label mounted = Return false mounted.
Proof.
  split; [vm_compute; reflexivity|].
  split; [vm_compute; reflexivity|].
  split; [vm_compute; reflexivity|].
  apply removeFromPortal_only_direct_children.
  intros id p Hin.
  assert (portals mounted = [("main"%string, 7)]) as Hp
    by (vm_compute; reflexivity).
  rewrite Hp in Hin. apply list_elem_of_singleton in Hin.
  injection Hin as _ ->.
  assert (parentNode (document mounted) label = Some tooltip) as ->
    by (vm_compute; reflexivity).
  unfold tooltip. discriminate.
Defined.

(** C10, as stated, fails: after [getPortal("tooltips", 10000)] and
    [addToPortal] of that portal into "main", [removeFromPortal] of the
    "tooltips" portal returns [true] and leaves it without a parent, while it
    is still registered. *)
Lemma removeFromPortal_detaches_nested_portal :
  wf nested /\
  ("tooltips"%string, 9) ∈ portals nested /\
  removeFromPortal 9 nested = Return true (removed 9 "main" nested) /\
  parentNode (document nested) 9 = Some 7 /\
  parentNode (document (removed 9 "main" nested)) 9 = None /\
  ("tooltips"%string, 9) ∈ portals (removed 9 "main" nested).
Proof.
  assert (portals nested = [("main"%string, 7); ("tooltips"%string, 9)]) as Hp
    by (vm_compute; reflexivity).
  split; [apply wf_nested|].
  split; [rewrite Hp; apply list_elem_of_further, list_elem_of_here|].
  split; [vm_compute; reflexivity|].
  split; [vm_compute; reflexivity|].
  split; [vm_compute; reflexivity|].
  cbn [removed portals]. rewrite Hp.
  apply list_elem_of_further, list_elem_of_here.
Qed.

End MembershipClaims.

(** ** Mounting and removing: the claims *)

Section RoundTripClaims.
Import Placement Dom JsObject PortalManager Sample.

(** C4.  The code diverges from the claim, and from the documentation of
    [removeFromPortal] ("True if the element was found and removed"), on an
    element that is itself a registered portal listed before "main".  After
    [destroy()] and [getPortal("tooltips")] the "tooltips" portal precedes
    "main" in [this.portals]; adding that portal to "main" returns it and
    makes it a child of the main portal, but the scan of [removeFromPortal]
    stops at the "tooltips" entry, because a node contains itself, and the
    call returns [false] without detaching anything.  The outcome depends on
    the order of the entries only: with "main" listed first the same calls
    return [true] and then [false]. *)
Lemma registered_portal_round_trip_fails :
  (wf rebuilt /\
   9 < nextNode (document rebuilt) /\
   portals rebuilt = [("tooltips"%string, 9)] /\
   exists s1,
     addToPortal 9 (Some "main"%string) rebuilt = Return 9 s1 /\
     portals s1 = [("tooltips"%string, 9); ("main"%string, 11)] /\
     parentNode (document s1) 9 = Some 11 /\
     findPortal (document s1) (portals s1) 9 = Some ("tooltips"%string, 9) /\
     removeFromPortal 9 s1 = Return false s1) /\
  (exists s0 s1,
     getPortal (Some "tooltips"%string) None fresh = Return (VElement 9) s0 /\
     addToPortal 9 (Some "main"%string) s0 = Return 9 s1 /\
     portals s1 = [("main"%string, 7); ("tooltips"%string, 9)] /\
     parentNode (document s1) 9 = Some 7 /\
     removeFromPortal 9 s1 = Return true (removed 9 "main" s1) /\
     removeFromPortal 9 (removed 9 "main" s1) =
       Return false (removed 9 "main" s1)).
Proof.
  split.
  - split; [apply wf_rebuilt|].
    split; [vm_compute; lia|].
    split; [vm_compute; reflexivity|].
    eexists. split; [vm_compute; reflexivity|].
    split; [vm_compute; reflexivity|].
    split; [vm_compute; reflexivity|].
    split; vm_compute; reflexivity.
  - eexists _, _. split; [vm_compute; reflexivity|].
    split; [vm_compute; reflexivity|].
    split; [vm_compute; reflexivity|].
    split; [vm_compute; reflexivity|].
    split; vm_compute; reflexivity.
Qed.

End RoundTripClaims.

(** * Further properties of the code *)

(** ** The coordinates [positionElement] computes *)

Section PlacementProperties.
Import Placement Dom JsObject PortalManager.

Lemma clampAxis_within v extent limit :
  (extent <= limit)%Q ->
  (0 <= clampAxis v extent limit)%Q /\
  (clampAxis v extent limit + extent <= limit)%Q.
Proof.
  intros Hfit. unfold clampAxis.
  destruct (Qltb v 0) eqn:E0.
  - destruct (Qltb limit (0 + extent)) eqn:E1.
    + apply Qltb_lt in E1. lra.
    + apply Qltb_ge in E1. lra.
  - apply Qltb_ge in E0.
    destruct (Qltb limit (v + extent)) eqn:E1.
    + split; lra.
    + apply Qltb_ge in E1. lra.
Qed.

Lemma clampAxis_idempotent v extent limit :
  clampAxis (clampAxis v extent limit) extent limit = clampAxis v extent limit.
Proof.
  destruct (Qlt_le_dec limit extent) as [Hbig | Hfit].
  - by rewrite !clampAxis_oversized.
  - destruct (clampAxis_within v extent limit Hfit) as [H0 H1].
    by apply clampAxis_nonneg_fits.
Qed.

(** X1.  On an axis on which the element is no larger than the viewport,
    the coordinate written into the transform is not negative, for every
    placement, anchor and margin: a negative coordinate is written only for
    an element larger than the viewport. *)
Theorem translation_nonnegative placement rect el margin vp :
  ((offsetWidth el <= innerWidth vp)%Q ->
   (0 <= fst (translation placement rect el margin vp))%Q) /\
  ((offsetHeight el <= innerHeight vp)%Q ->
   (0 <= snd (translation placement rect el margin vp))%Q).
Proof.
  unfold translation.
  destruct (idealPosition rect el margin placement) as [x y].
  rewrite clampToViewport_axes. cbn [fst snd].
  split; intros Hfit.
  - by destruct (clampAxis_within x _ _ Hfit).
  - by destruct (clampAxis_within y _ _ Hfit).
Qed.

Lemma translation_nonnegative_witness :
  (0 <= fst (translation "left" (domRect 10 990 50 20) (mkSize 30 10) 5
               (mkViewport 1000 1000)))%Q /\
  (0 <= snd (translation "left" (domRect 10 990 50 20) (mkSize 30 10) 5
               (mkViewport 1000 1000)))%Q.
Proof.
  destruct (translation_nonnegative "left" (domRect 10 990 50 20)
              (mkSize 30 10) 5 (mkViewport 1000 1000)) as [Hx Hy].
  split; [apply Hx | apply Hy]; vm_compute; discriminate.
Defined.

(** X2.  When the ideal position already lies inside the viewport, the four
    adjustments change nothing: the transform carries the ideal coordinates
    of the [switch]. *)
Theorem translation_ideal_when_inside placement rect el margin vp :
  (0 <= fst (idealPosition rect el margin placement))%Q ->
  (fst (idealPosition rect el margin placement) + offsetWidth el
     <= innerWidth vp)%Q ->
  (0 <= snd (idealPosition rect el margin placement))%Q ->
  (snd (idealPosition rect el margin placement) + offsetHeight el
     <= innerHeight vp)%Q ->
  translation placement rect el margin vp =
    idealPosition rect el margin placement.
Proof.
  unfold translation.
  destruct (idealPosition rect el margin placement) as [x y]. cbn [fst snd].
  intros Hx0 Hx1 Hy0 Hy1. rewrite clampToViewport_axes.
  by rewrite !clampAxis_nonneg_fits.
Qed.

Lemma translation_ideal_when_inside_witness :
  translation "top-right" (domRect 100 100 50 20) (mkSize 30 10) 5
    (mkViewport 1000 1000) =
  idealPosition (domRect 100 100 50 20) (mkSize 30 10) 5 "top-right".
Proof.
  apply translation_ideal_when_inside; vm_compute; discriminate.
Defined.

(** X3.  The adjustments are a projection: applying them to coordinates that
    have been adjusted already gives the same coordinates, whatever the
    sizes of element and viewport. *)
Theorem clampToViewport_idempotent el vp xy :
  clampToViewport el vp (clampToViewport el vp xy) = clampToViewport el vp xy.
Proof.
  destruct xy as [x y]. rewrite !clampToViewport_axes.
  by rewrite !clampAxis_idempotent.
Qed.

End PlacementProperties.

(** ** What creating a portal changes *)

Section CreationProperties.
Import Placement Dom JsObject PortalManager Sample Usage.
Implicit Types (s : State) (d : Document) (id : string).

Lemma parentOf_installPortal_old id z d (m : nat) :
  m < nextNode d ->
  parentOf (installPortal id z d) !! m = parentOf d !! m.
Proof.
  intros Hm. rewrite parentOf_installPortal.
  by rewrite !lookup_insert_ne by lia.
Qed.

Lemma childNodes_installPortal_other id z d (n : nat) :
  wfTree d -> n <> head -> n <> body ->
  childNodes (installPortal id z d) n = childNodes d n.
Proof.
  intros [Hh Hb Hp _] Hnh Hnb. unfold installPortal.
  rewrite childNodes_updateElement, childNodes_attachLast_ne by done.
  rewrite childNodes_detach_ne; cycle 1.
  { autorewrite with dom.
    rewrite lookup_insert_ne by lia. rewrite lookup_delete_ne by lia.
    intros Hc. apply Hp in Hc. lia. }
  rewrite childNodes_updateElement, childNodes_attachLast_ne by done.
  rewrite childNodes_detach_ne; [by autorewrite with dom|].
  autorewrite with dom. intros Hc. apply Hp in Hc. lia.
Qed.

(** Nothing is a child of a portal that has just been installed. *)
Lemma installPortal_empty id z d (c : nat) :
  wfTree d ->
  parentOf (installPortal id z d) !! c <> Some (nextNode d).
Proof.
  intros [Hh Hb Hp _]. rewrite parentOf_installPortal.
  rewrite lookup_insert. case_decide; [unfold body in *; intros [=]; lia|].
  rewrite lookup_insert. case_decide; [unfold head in *; intros [=]; lia|].
  intros Hc. apply Hp in Hc. lia.
Qed.

Lemma elem_of_installed id z s id' p :
  getProperty (portals s) id = None ->
  (id', p) ∈ portals (installed id z s) <->
  (id', p) = (id, nextNode (document s)) \/ (id', p) ∈ portals s.
Proof.
  intros Hget. apply getProperty_None in Hget as [Hown _].
  unfold installed. cbn [portals].
  rewrite (setProperty_fresh_perm _ _ _ Hown). apply elem_of_cons.
Qed.

(** X5.  [getPortal] never disturbs what is there: every portal registered
    before is registered after, every node created before keeps its parent
    and its element data, every node other than the head and the body keeps
    its children, and the signals emitted before are still the first
    ones. *)
Theorem getPortal_preserves_existing s i z :
  wf s ->
  (forall id p,
     (id, p) ∈ portals s -> (id, p) ∈ portals (stateOf (getPortal i z s))) /\
  (forall n,
     n < nextNode (document s) ->
     parentNode (document (stateOf (getPortal i z s))) n =
       parentNode (document s) n /\
     element (document (stateOf (getPortal i z s))) n =
       element (document s) n) /\
  (forall n,
     n <> head -> n <> body ->
     childNodes (document (stateOf (getPortal i z s))) n =
       childNodes (document s) n) /\
  emitted s `prefix_of` emitted (stateOf (getPortal i z s)).
Proof.
  intros Hwf. pose proof (wf_document _ Hwf) as Hd.
  destruct (getPortal_outcome s i z Hd)
    as [(v & E & ->) | [(E & _ & ->) | (E & _ & ->)]]; cbn [stateOf].
  - repeat split; done.
  - split; [|split; [|split]].
    + intros id p Hin. apply elem_of_installed; [done | by right].
    + intros n Hn. unfold installed, parentNode. cbn [document].
      split; [by apply parentOf_installPortal_old|].
      by apply element_installPortal_other.
    + intros n Hnh Hnb. by apply childNodes_installPortal_other.
    + by eexists.
  - unfold abandoned. cbn [document portals emitted mapDocument].
    split; [done|]. split; [|split; [|done]].
    + intros n Hn. split; [apply parentNode_abandonPortal; lia|].
      by apply element_abandonPortal.
    + intros n Hnh _. by apply childNodes_abandonPortal.
Qed.

Lemma getPortal_preserves_existing_witness :
  ("main"%string, 7) ∈
    portals (stateOf (getPortal (Some "tooltips"%string) (Some 10000%Z) fresh)) /\
  parentNode
    (document (stateOf (getPortal (Some "tooltips"%string) (Some 10000%Z) fresh)))
    7 = parentNode (document fresh) 7.
Proof.
  destruct (getPortal_preserves_existing fresh (Some "tooltips"%string)
              (Some 10000%Z) wf_fresh) as (Hreg & Hold & _ & _).
  split.
  - apply Hreg.
    assert (portals fresh = [("main"%string, 7)]) as ->
      by (vm_compute; reflexivity).
    apply list_elem_of_here.
  - apply Hold. vm_compute. lia.
Defined.

(** X6.  While [document.head] and [document.body] are present, a portal
    that [getPortal] creates is a new node: it becomes the last child of the
    body and nothing is its child; it is registered under the identifier,
    together with everything that was registered; its element is a [div]
    with id [portal-<id>], class [ui-portal], the attribute
    [data-portal-id], [position: fixed], [pointer-events: none] and the
    given z-index, 9999 if none is given (no z-index at all when the number
    is written with an exponent); one [portalCreated] is emitted for it,
    after everything emitted before. *)
Theorem getPortal_creates s id z :
  wf s ->
  hostReady (document s) ->
  getProperty (portals s) id = None ->
  exists p s',
    getPortal (Some id) z s = Return (VElement p) s' /\
    p = nextNode (document s) /\
    (forall id' p', (id', p') ∈ portals s' <->
                    (id', p') = (id, p) \/ (id', p') ∈ portals s) /\
    childNodes (document s') body = childNodes (document s) body ++ [p] /\
    parentNode (document s') p = Some body /\
    (forall c, parentNode (document s') c <> Some p) /\
    element (document s') p =
      mkElement "div" ("portal-" +:+ id) "ui-portal" None
        (mkStyle (Some "fixed") (Some "0") (Some "0") (Some "100%")
           (Some "100%") (Some "visible") (Some "none")
           (if (Z.abs (default 9999%Z z) <? 10 ^ 21)%Z
            then Some (default 9999%Z z) else None) None)
        {["data-portal-id" := id]} /\
    emitted s' = emitted s ++ [PortalCreated id p].
Proof.
  intros Hwf Hready Hget. pose proof (wf_document _ Hwf) as Hd.
  eexists _, _. split; [by apply getPortal_new|].
  split; [done|].
  split; [intros id' p'; by apply elem_of_installed|].
  unfold installed, parentNode. cbn [document emitted].
  split; [by apply childNodes_installPortal_body|].
  split; [by rewrite parentOf_installPortal, lookup_insert_eq|].
  split; [intros c; by apply installPortal_empty|].
  split; [apply element_installPortal_portal | done].
Qed.

Lemma getPortal_creates_witness :
  exists p s',
    getPortal (Some "tooltips"%string) (Some 10000%Z) fresh =
      Return (VElement p) s' /\
    childNodes (document s') body = childNodes (document fresh) body ++ [p] /\
    zIndex (style (element (document s') p)) = Some 10000%Z /\
    pointerEvents (style (element (document s') p)) = Some "none"%string.
Proof.
  destruct (getPortal_creates fresh "tooltips" (Some 10000%Z) wf_fresh)
    as (p & s' & Hrun & _ & _ & Hbody & _ & _ & Hel & _);
    [split; vm_compute; reflexivity | vm_compute; reflexivity|].
  exists p, s'. split; [exact Hrun|]. split; [exact Hbody|].
  rewrite Hel. split; reflexivity.
Defined.

(** X20.  [getPortal] throws exactly when it has to create the portal and
    [document.head] or [document.body] is [null]; what it throws is a
    [TypeError].  By then both elements have been created, and the style
    element has been put into the head if the head is present, but the
    portal has no parent, nothing has been registered and nothing emitted,
    and every node created before keeps its parent and its data. *)
Theorem getPortal_needs_head_and_body s i z :
  wf s ->
  ((exists err s', getPortal i z s = Throw err s') <->
   getProperty (portals s) (default "main"%string i) = None /\
   ~ hostReady (document s)) /\
  forall err s',
    getPortal i z s = Throw err s' ->
    err = TypeError /\
    portals s' = portals s /\
    emitted s' = emitted s /\
    nextNode (document s') = S (S (nextNode (document s))) /\
    parentNode (document s') (nextNode (document s)) = None /\
    (parentNode (document s') (S (nextNode (document s))) = Some head <->
     documentHead (document s) = Some head) /\
    (forall n,
       n < nextNode (document s) ->
       parentNode (document s') n = parentNode (document s) n /\
       element (document s') n = element (document s) n).
Proof.
  intros Hwf. pose proof (wf_document _ Hwf) as Hd.
  pose proof (wf_parent _ Hd) as Hp.
  destruct (getPortal_outcome s i z Hd)
    as [(v & E & Hrun) | [(E & Hready & Hrun) | (E & Hnot & Hrun)]];
    rewrite Hrun.
  - split; [|done]. split; [by intros (? & ? & ?)|].
    intros [E' _]. congruence.
  - split; [|done]. split; [by intros (? & ? & ?) | by intros [_ ?]].
  - split; [split; [done | by eauto]|].
    intros err s' [= <- <-]. split; [done|].
    unfold abandoned. cbn [document portals emitted mapDocument].
    split; [done|]. split; [done|].
    split; [apply nextNode_abandonPortal|].
    assert (forall m : nat, nextNode (document s) <= m ->
              parentOf (document s) !! m = None) as Hnew.
    { intros m Hm. destruct (parentOf (document s) !! m) as [q|] eqn:Hq;
        [|done]. apply Hp in Hq. lia. }
    split.
    { rewrite parentNode_abandonPortal by lia. apply Hnew. lia. }
    split.
    { unfold parentNode, abandonPortal.
      destruct (documentHead (document s)) as [h|] eqn:Hhead.
      - apply childOfDocumentElement_Some in Hhead as ->.
        by rewrite parentOf_stylePortal, lookup_insert_eq.
      - change (parentOf (preparePortal (default "main"%string i)
                            (default 9999%Z z) (document s)))
          with (parentOf (document s)).
        rewrite Hnew by lia. split; discriminate. }
    intros n Hn. split; [apply parentNode_abandonPortal; lia|].
    by apply element_abandonPortal.
Qed.

Lemma getPortal_needs_head_and_body_witness :
  exists s',
    getPortal (Some "tooltips"%string) None
      (stateOf (addToPortal head (Some "main"%string) fresh)) =
      Throw TypeError s' /\
    portals s' = portals (stateOf (addToPortal head (Some "main"%string) fresh)).
Proof.
  set (s := stateOf (addToPortal head (Some "main"%string) fresh)).
  assert (wf s) as Hwf by (apply wf_addToPortal; [apply wf_fresh | vm_compute; lia]).
  destruct (getPortal_needs_head_and_body s (Some "tooltips"%string) None Hwf)
    as [Hiff Hthrow].
  destruct (proj2 Hiff) as (err & s' & Hrun).
  { split; [vm_compute; reflexivity|].
    intros [Hhead _]. vm_compute in Hhead. discriminate. }
  destruct (Hthrow err s' Hrun) as (-> & Hportals & _).
  exists s'. split; [exact Hrun | exact Hportals].
Defined.

End CreationProperties.

(** ** What mounting and removing change *)

Section MountProperties.
Import Placement Dom JsObject PortalManager Sample Usage.
Implicit Types (s : State) (d : Document) (id : string) (e p q n : node).

Lemma getProperty_VElement o k p :
  getProperty o k = Some (VElement p) -> (k, p) ∈ o.
Proof.
  unfold getProperty. destruct (ownProperty o k) as [n|] eqn:E.
  - intros [= ->]. by apply ownProperty_Some.
  - by destruct (inherited k).
Qed.

Lemma getProperty_VInherited o k name :
  getProperty o k = Some (VInherited name) ->
  ownProperty o k = None /\ inherited k = true.
Proof.
  unfold getProperty. destruct (ownProperty o k) as [n|]; [done|].
  by destruct (inherited k).
Qed.

(** The ways [addToPortal] can end: after [getPortal] has returned, in one of
    three ways; or with the [TypeError] of a [getPortal] that could not
    create the portal. *)
Lemma addToPortal_outcome s e pid :
  wf s ->
  (exists v s1,
     getPortal (Some (default "main"%string pid)) None s = Return v s1 /\
     wf s1 /\
     getProperty (portals s1) (default "main"%string pid) = Some v /\
     match v with
     | VInherited _ => addToPortal e pid s = Throw TypeError s1
     | VElement p =>
         (contains (document s1) e p = true /\
          addToPortal e pid s = Throw (DOMError HierarchyRequestError) s1) \/
         (contains (document s1) e p = false /\
          addToPortal e pid s =
            Return e (attached e p (default "main"%string pid) s1))
     end) \/
  (getProperty (portals s) (default "main"%string pid) = None /\
   ~ hostReady (document s) /\
   getPortal (Some (default "main"%string pid)) None s =
     Throw TypeError (abandoned (default "main"%string pid) 9999 s) /\
   addToPortal e pid s =
     Throw TypeError (abandoned (default "main"%string pid) 9999 s)).
Proof.
  intros Hwf.
  destruct (getPortal (Some (default "main"%string pid)) None s)
    as [v s1|err s1] eqn:Hget.
  - left. exists v, s1. split; [done|].
    split; [by eapply wf_getPortal|].
    split; [eapply getPortal_returned; [apply Hwf | done]|].
    destruct v as [p|name].
    + destruct (contains (document s1) e p) eqn:Hc.
      * left. split; [done|]. by eapply addToPortal_cyclic.
      * right. split; [done|]. by eapply addToPortal_run.
    + unfold addToPortal. by erewrite bind_Return by exact Hget.
  - right.
    destruct (getPortal_outcome s (Some (default "main"%string pid)) None
                (wf_document _ Hwf))
      as [(v & _ & Hrun) | [(_ & _ & Hrun) | (E & Hnot & Hrun)]];
      [congruence | congruence |].
    change (getPortal (Some (default "main"%string pid)) None s =
            Throw TypeError (abandoned (default "main"%string pid) 9999 s))
      in Hrun.
    rewrite Hget in Hrun. injection Hrun as -> ->.
    split; [exact E|]. split; [exact Hnot|]. split; [reflexivity|].
    by apply addToPortal_abandoned.
Qed.

Lemma parentOf_attached s e p pid :
  parentOf (document (attached e p pid s)) = <[e := p]> (parentOf (document s)).
Proof.
  unfold attached. cbn [document]. autorewrite with dom.
  apply insert_delete_eq.
Qed.

Lemma childNodes_attached s e p pid :
  childNodes (document (attached e p pid s)) p =
    childNodes (detach e (document s)) p ++ [e].
Proof.
  unfold attached. cbn [document].
  by rewrite childNodes_updateElement, childNodes_attachLast.
Qed.

Lemma childNodes_attached_left s e p pid q :
  parentNode (document s) e = Some q -> q <> p ->
  e ∉ childNodes (document (attached e p pid s)) q.
Proof.
  intros Hq Hne. unfold attached. cbn [document].
  rewrite childNodes_updateElement, childNodes_attachLast_ne by done.
  by apply childNodes_detach_self.
Qed.

Lemma element_attached s e p pid :
  element (document (attached e p pid s)) e =
    setPointerEvents "auto" (element (document s) e).
Proof.
  unfold attached. cbn [document]. rewrite element_updateElement.
  by autorewrite with dom.
Qed.

(** What [getPortal] leaves of a node created before the call, whether it
    returns or throws. *)
Lemma getPortal_keeps_node s i z n :
  wf s -> n < nextNode (document s) ->
  parentNode (document (stateOf (getPortal i z s))) n =
    parentNode (document s) n /\
  element (document (stateOf (getPortal i z s))) n = element (document s) n.
Proof.
  intros Hwf Hn. pose proof (wf_document _ Hwf) as Hd.
  destruct (getPortal_outcome s i z Hd)
    as [(v & E & ->) | [(E & _ & ->) | (E & _ & ->)]]; cbn [stateOf].
  - done.
  - unfold installed, parentNode. cbn [document].
    split; [by apply parentOf_installPortal_old|].
    by apply element_installPortal_other.
  - unfold abandoned. cbn [document mapDocument].
    split; [apply parentNode_abandonPortal; lia|].
    by apply element_abandonPortal.
Qed.

Lemma getPortal_old_node s i z v s1 n :
  wf s -> getPortal i z s = Return v s1 -> n < nextNode (document s) ->
  parentNode (document s1) n = parentNode (document s) n /\
  element (document s1) n = element (document s) n.
Proof.
  intros Hwf Hget Hn.
  pose proof (getPortal_keeps_node s i z n Hwf Hn) as H.
  by rewrite Hget in H.
Qed.

(** [getPortal] emits at most the [portalCreated] of the portal it
    creates. *)
Lemma getPortal_emitted s i z ev :
  wf s -> ev ∈ emitted (stateOf (getPortal i z s)) ->
  ev ∈ emitted s \/ exists id p, ev = PortalCreated id p.
Proof.
  intros Hwf. pose proof (wf_document _ Hwf) as Hd.
  destruct (getPortal_outcome s i z Hd)
    as [(v & E & ->) | [(E & _ & ->) | (E & _ & ->)]]; cbn [stateOf];
    [by left | | by left].
  unfold installed. cbn [emitted]. intros Hin.
  apply elem_of_app in Hin as [Hin | Hin]; [by left|].
  apply list_elem_of_singleton in Hin. right. eauto.
Qed.

(** X7.  When [addToPortal] returns, it returns the element, and the
    element has been moved: its parent is the portal registered under the
    identifier, it is the last child of that portal, it is gone from the
    children of the parent it had, its [pointer-events] is "auto", no other
    node created before has changed parent, and the last signal emitted is
    [elementAdded] for the element and the identifier. *)
Theorem addToPortal_moves_element s e pid r s' :
  wf s ->
  e < nextNode (document s) ->
  addToPortal e pid s = Return r s' ->
  r = e /\
  exists p,
    (default "main"%string pid, p) ∈ portals s' /\
    parentNode (document s') e = Some p /\
    last (childNodes (document s') p) = Some e /\
    (forall q, parentNode (document s) e = Some q -> q <> p ->
               e ∉ childNodes (document s') q) /\
    (forall n, n < nextNode (document s) -> n <> e ->
               parentNode (document s') n = parentNode (document s) n) /\
    pointerEvents (style (element (document s') e)) = Some "auto"%string /\
    last (emitted s') = Some (ElementAdded e (default "main"%string pid)).
Proof.
  intros Hwf He Hrun.
  destruct (addToPortal_outcome s e pid Hwf)
    as [(v & s1 & Hget & Hwf1 & Hprop & Hcases) | (_ & _ & _ & Hthrow)];
    [|congruence].
  destruct v as [p|name]; [|congruence].
  destruct Hcases as [[_ Hthrow] | [Hfree Hok]]; [congruence|].
  rewrite Hok in Hrun. injection Hrun as <- <-.
  split; [done|]. exists p.
  split; [by apply getProperty_VElement|].
  unfold parentNode. rewrite parentOf_attached.
  split; [by rewrite lookup_insert_eq|].
  split; [rewrite childNodes_attached; apply last_snoc|].
  split.
  { intros q Hq Hne. apply childNodes_attached_left; [|done].
    by destruct (getPortal_old_node _ _ _ _ _ e Hwf Hget He) as [-> _]. }
  split.
  { intros n Hn Hne. rewrite lookup_insert_ne by done.
    by destruct (getPortal_old_node _ _ _ _ _ n Hwf Hget Hn) as [? _]. }
  split; [by rewrite element_attached|].
  unfold attached. cbn [emitted]. apply last_snoc.
Qed.

Lemma addToPortal_moves_element_witness :
  exists p,
    ("tooltips"%string, p) ∈ portals tipped /\
    parentNode (document tipped) tooltip = Some p /\
    last (childNodes (document tipped) p) = Some tooltip /\
    last (emitted tipped) = Some (ElementAdded tooltip "tooltips").
Proof.
  assert (addToPortal tooltip (Some "tooltips"%string) fresh =
          Return tooltip tipped) as Hrun by (vm_compute; reflexivity).
  assert (tooltip < nextNode (document fresh)) as Hlt by (vm_compute; lia).
  destruct (addToPortal_moves_element fresh tooltip (Some "tooltips"%string)
              tooltip tipped wf_fresh Hlt Hrun)
    as (_ & p & Hreg & Hpar & Hlast & _ & _ & _ & Hev).
  exists p. split; [exact Hreg|]. split; [exact Hpar|].
  split; [exact Hlast | exact Hev].
Defined.

(** X8.  [addToPortal] throws in three cases only: a [TypeError] when the
    identifier names a member of [Object.prototype], with the state
    untouched; a [TypeError] when the portal has to be created and
    [document.head] or [document.body] is [null], with nothing registered
    and nothing emitted; a [HierarchyRequestError] when the element contains
    the portal.  In each case the state is the one [getPortal] left, so a
    portal that did not exist may have been created all the same; the
    element keeps its parent and its data, and no [elementAdded] has been
    emitted for it. *)
Theorem addToPortal_failure s e pid err s' :
  wf s ->
  e < nextNode (document s) ->
  addToPortal e pid s = Throw err s' ->
  ((err = TypeError /\ inherited (default "main"%string pid) = true /\ s' = s) \/
   (err = TypeError /\
    getProperty (portals s) (default "main"%string pid) = None /\
    ~ hostReady (document s) /\
    portals s' = portals s /\ emitted s' = emitted s) \/
   (err = DOMError HierarchyRequestError /\
    exists p, (default "main"%string pid, p) ∈ portals s' /\
              contains (document s') e p = true)) /\
  s' = stateOf (getPortal (Some (default "main"%string pid)) None s) /\
  parentNode (document s') e = parentNode (document s) e /\
  element (document s') e = element (document s) e /\
  (forall portalId,
     ElementAdded e portalId ∈ emitted s' -> ElementAdded e portalId ∈ emitted s).
Proof.
  intros Hwf He Hrun.
  assert (s' = stateOf (getPortal (Some (default "main"%string pid)) None s))
    as Hstate.
  { destruct (addToPortal_outcome s e pid Hwf)
      as [(v & s1 & Hget & _ & _ & Hcases) | (_ & _ & Hget & Hthrow)].
    - rewrite Hget. cbn [stateOf]. destruct v as [p|name]; [|congruence].
      destruct Hcases as [[_ Hthrow] | [_ Hok]]; congruence.
    - rewrite Hget. cbn [stateOf]. congruence. }
  destruct (getPortal_keeps_node s (Some (default "main"%string pid)) None e
              Hwf He) as [Hpar Hel].
  rewrite <- Hstate in Hpar, Hel.
  split; [|split; [done | split; [done | split; [done|]]]].
  - destruct (addToPortal_outcome s e pid Hwf)
      as [(v & s1 & Hget & _ & Hprop & Hcases) | (E & Hnot & Hget & Hthrow)].
    + rewrite Hget in Hstate. cbn [stateOf] in Hstate. subst s1.
      destruct v as [p|name].
      * right. right.
        destruct Hcases as [[Hc Hthrow] | [_ Hok]]; [|congruence].
        split; [congruence|]. exists p.
        split; [by apply getProperty_VElement | done].
      * left. split; [congruence|].
        apply getPortal_Return in Hget as [[E Heq] | (_ & _ & [=] & _)];
          [|apply Hwf].
        apply getProperty_VInherited in E as [_ E]. by split.
    + right. left. rewrite Hget in Hstate. cbn [stateOf] in Hstate.
      subst s'. split; [congruence|]. by repeat split.
  - intros portalId Hin. rewrite Hstate in Hin.
    apply getPortal_emitted in Hin as [Hin | (id & p & [=])]; done.
Qed.

Lemma addToPortal_failure_witness :
  exists s',
    addToPortal body (Some "tooltips"%string) fresh =
      Throw (DOMError HierarchyRequestError) s' /\
    (exists p, ("tooltips"%string, p) ∈ portals s' /\
               contains (document s') body p = true) /\
    parentNode (document s') body = parentNode (document fresh) body.
Proof.
  assert (exists s', addToPortal body (Some "tooltips"%string) fresh =
                     Throw (DOMError HierarchyRequestError) s') as [s' Hrun]
    by (eexists; vm_compute; reflexivity).
  assert (body < nextNode (document fresh)) as Hlt by (vm_compute; lia).
  destruct (addToPortal_failure fresh body (Some "tooltips"%string) _ s'
              wf_fresh Hlt Hrun)
    as ([(Herr & _) | [(Herr & _) | (_ & Hp)]] & _ & Hpar & _).
  - discriminate Herr.
  - discriminate Herr.
  - exists s'. split; [exact Hrun|]. split; [exact Hp | exact Hpar].
Defined.

(** X9.  [removeFromPortal] never throws.  When it returns [false] the state
    is the one it started in.  When it returns [true] the element was a
    child of a registered portal: it now has no parent and is gone from that
    portal's children, every other node keeps its parent, the registry is
    as before, and exactly one signal, [elementRemoved] for the element and
    an identifier of that portal, has been emitted. *)
Theorem removeFromPortal_outcome s e :
  exists b s',
    removeFromPortal e s = Return b s' /\
    (b = false -> s' = s) /\
    (b = true ->
     exists id p,
       (id, p) ∈ portals s /\
       parentNode (document s) e = Some p /\
       parentNode (document s') e = None /\
       (e ∉ childNodes (document s') p) /\
       (forall n, n <> e ->
          parentNode (document s') n = parentNode (document s) n) /\
       portals s' = portals s /\
       emitted s' = emitted s ++ [ElementRemoved e id]).
Proof.
  unfold removeFromPortal.
  do 2 erewrite bind_Return by apply gets_run.
  destruct (findPortal (document s) (portals s) e) as [[id p]|] eqn:Hfind;
    [|by exists false, s].
  destruct (decide (parentNode (document s) e = Some p)) as [Hpar|];
    [|by exists false, s].
  exists true, (removed e id s).
  split; [by (erewrite bind_Return by (by apply removeChild_run))|].
  split; [done|]. intros _. exists id, p.
  apply findPortal_Some in Hfind as [Hin _].
  split; [done|]. split; [done|].
  unfold removed, parentNode. cbn [document portals emitted].
  rewrite parentOf_detach.
  split; [by rewrite lookup_delete_eq|].
  split; [by apply childNodes_detach_self|].
  split; [intros n Hn; by rewrite lookup_delete_ne | done].
Qed.

End MountProperties.

(** ** Ordinary use: portals are never handed back as elements *)

Section FlatProperties.
Import Placement Dom JsObject PortalManager Sample Usage.
Implicit Types (s : State) (d : Document) (id : string) (e p q n : node).

Lemma not_ancestor_body s e :
  wf s -> contains (document s) e body = false ->
  ~ ancestorOrSelf (parentOf (document s)) e body.
Proof. intros Hwf. apply contains_not_ancestor, Hwf. Qed.

Lemma flat_installed s id z :
  wf s -> flat s -> getProperty (portals s) id = None ->
  flat (installed id z s).
Proof.
  intros Hwf Hflat Hget id' p Hin. pose proof (wf_document _ Hwf) as Hd.
  apply elem_of_installed in Hin as [[= -> ->] | Hin]; [| |done];
    unfold installed, parentNode; cbn [document].
  - split.
    + rewrite parentOf_installPortal, lookup_insert_eq. by intros q [= <-].
    + apply contains_false. intros H.
      apply ancestorOrSelf_installPortal in H; [|done | apply Hd].
      revert H. apply ancestorOrSelf_uncreated; [done | lia | apply Hd].
  - destruct (Hflat _ _ Hin) as [Hpar Hbody].
    destruct (wf_portal _ Hwf _ _ Hin) as (Hlt & _ & _).
    split.
    + rewrite parentOf_installPortal_old by done. apply Hpar.
    + apply contains_false. intros H.
      apply ancestorOrSelf_installPortal in H; [|done | apply Hd].
      by apply (not_ancestor_body s p).
Qed.

Lemma mountable_installed s id z e :
  wf s -> mountable s e -> getProperty (portals s) id = None ->
  mountable (installed id z s) e.
Proof.
  intros Hwf (He & Hroot & Hbody) Hget. pose proof (wf_document _ Hwf) as Hd.
  split; [|split].
  - unfold installed. cbn [document]. rewrite nextNode_installPortal. lia.
  - intros id' p Hin. apply elem_of_installed in Hin as [[= -> ->] | Hin];
      [lia | by eapply Hroot | done].
  - unfold installed. cbn [document]. apply contains_false. intros H.
    apply ancestorOrSelf_installPortal in H; [|done | apply Hd].
    by apply (not_ancestor_body s e).
Qed.

Lemma flat_abandoned s id z : wf s -> flat s -> flat (abandoned id z s).
Proof.
  intros Hwf Hflat id' p Hin. pose proof (wf_document _ Hwf) as Hd.
  unfold abandoned in *. cbn [document portals mapDocument] in *.
  destruct (Hflat _ _ Hin) as [Hpar Hbody].
  destruct (wf_portal _ Hwf _ _ Hin) as (Hlt & _ & _).
  split.
  - rewrite parentNode_abandonPortal by lia. apply Hpar.
  - rewrite contains_abandonPortal; [done.. | apply Hd].
Qed.

Lemma mountable_abandoned s id z e :
  wf s -> mountable s e -> mountable (abandoned id z s) e.
Proof.
  intros Hwf (He & Hroot & Hbody). pose proof (wf_document _ Hwf) as Hd.
  unfold mountable, abandoned. cbn [document portals mapDocument].
  split; [rewrite nextNode_abandonPortal; lia|]. split; [done|].
  rewrite contains_abandonPortal; [done.. | apply Hd].
Qed.

(** Installing a portal leaves [document.head] and [document.body] in
    place. *)
Lemma hostReady_installed s id z :
  wf s -> hostReady (document s) -> hostReady (document (installed id z s)).
Proof.
  intros Hwf Hready. pose proof (wf_document _ Hwf) as Hd.
  pose proof Hready as (Hhtml & Hhead & Hbody)%hostReady_parents.
  revert Hready. unfold installed. cbn [document].
  apply hostReady_ext; unfold parentNode; apply parentOf_installPortal_old.
  - by apply (wf_parent _ Hd) in Hhtml as [? _].
  - apply Hd.
  - apply Hd.
Qed.


Lemma flat_attached s e p pid e' :
  wf s -> flat s -> mountable s e ->
  (flat (attached e p pid s)) /\
  (mountable s e' -> mountable (attached e p pid s) e').
Proof.
  intros Hwf Hflat (He & Hroot & Hbody).
  pose proof (not_ancestor_body s e Hwf Hbody) as Hnot.
  split.
  - intros id p' Hin. unfold attached in Hin. cbn [portals] in Hin.
    destruct (Hflat _ _ Hin) as [Hpar Hpb].
    unfold parentNode. rewrite parentOf_attached.
    split.
    + rewrite lookup_insert_ne; [apply Hpar|]. intros ->. by eapply Hroot.
    + apply contains_false. unfold attached. cbn [document].
      autorewrite with dom. rewrite insert_delete_eq. intros H.
      apply ancestorOrSelf_insert in H; [|done].
      by apply (not_ancestor_body s p').
  - intros (He' & Hroot' & Hbody').
    split; [unfold attached; cbn [document]; by autorewrite with dom|].
    split; [done|].
    apply contains_false. unfold attached. cbn [document].
    autorewrite with dom. rewrite insert_delete_eq. intros H.
    apply ancestorOrSelf_insert in H; [|done].
    by apply (not_ancestor_body s e').
Qed.

Lemma flat_removed s e pid e' :
  wf s -> flat s ->
  flat (removed e pid s) /\
  (mountable s e' -> mountable (removed e pid s) e').
Proof.
  intros Hwf Hflat. split.
  - intros id p Hin. unfold removed in Hin. cbn [portals] in Hin.
    destruct (Hflat _ _ Hin) as [Hpar Hpb].
    unfold removed, parentNode. cbn [document]. rewrite parentOf_detach.
    split.
    + intros q Hq. apply lookup_delete_Some in Hq as [_ Hq]. by apply Hpar.
    + apply contains_false. rewrite parentOf_detach. intros H.
      apply ancestorOrSelf_delete in H. by apply (not_ancestor_body s p).
  - intros (He' & Hroot' & Hbody').
    split; [by unfold removed; cbn; rewrite nextNode_detach|].
    split; [done|].
    apply contains_false. unfold removed. cbn [document].
    rewrite parentOf_detach. intros H.
    apply ancestorOrSelf_delete in H. by apply (not_ancestor_body s e').
Qed.

(** In a flat registry the scan of [removeFromPortal] finds the parent. *)
Lemma findPortal_flat s e id p :
  wf s -> flat s ->
  (id, p) ∈ portals s ->
  parentNode (document s) e = Some p ->
  (forall id' p', (id', p') ∈ portals s -> p' <> e) ->
  findPortal (document s) (portals s) e = Some (id, p).
Proof.
  intros Hwf Hflat Hin Hpar Hroot. pose proof (wf_document _ Hwf) as Hd.
  apply findPortal_first; [done | by apply contains_parent | | apply Hwf].
  intros id' p' Hin' Hc. destruct (decide (p' = p)) as [|Hne]; [done|].
  exfalso. apply contains_sound in Hc.
  apply ancestorOrSelf_inv in Hc as [-> | (q & Hq & Hc)]; [by eapply Hroot|].
  unfold parentNode in Hpar. rewrite Hpar in Hq. injection Hq as <-.
  apply ancestorOrSelf_inv in Hc as [? | (q & Hq & Hc)]; [done|].
  destruct (Hflat _ _ Hin) as [Hpb _]. apply Hpb in Hq as ->.
  destruct (Hflat _ _ Hin') as [_ Hnb].
  by apply (not_ancestor_body s p').
Qed.

(** [getPortal] followed by the [appendChild] of [addToPortal], for a
    mountable element and an identifier that is not inherited. *)
Lemma addToPortal_flat s e pid :
  wf s -> flat s -> mountable s e -> hostReady (document s) ->
  inherited (default "main"%string pid) = false ->
  exists p s1,
    getPortal (Some (default "main"%string pid)) None s =
      Return (VElement p) s1 /\
    addToPortal e pid s =
      Return e (attached e p (default "main"%string pid) s1) /\
    wf s1 /\ flat s1 /\ mountable s1 e /\
    (forall e', mountable s e' -> mountable s1 e') /\
    (default "main"%string pid, p) ∈ portals s1 /\
    contains (document s1) e p = false /\
    hostReady (document s1).
Proof.
  intros Hwf Hflat Hm Hready Hown. pose proof (wf_document _ Hwf) as Hd.
  assert (exists p s1,
            getPortal (Some (default "main"%string pid)) None s =
              Return (VElement p) s1 /\
            wf s1 /\ flat s1 /\
            (forall e', mountable s e' -> mountable s1 e') /\
            (default "main"%string pid, p) ∈ portals s1 /\
            hostReady (document s1))
    as (p & s1 & Hget & Hwf1 & Hflat1 & Hm1 & Hin & Hready1).
  { destruct (getProperty (portals s) (default "main"%string pid))
      as [v|] eqn:E.
    - destruct v as [p|name].
      + exists p, s. split; [by apply getPortal_existing|].
        split; [done|]. split; [done|]. split; [done|].
        split; [by apply getProperty_VElement | done].
      + apply getProperty_VInherited in E as [_ E]. congruence.
    - eexists _, _. split; [by apply getPortal_new|].
      split; [by apply wf_installed|].
      split; [by apply flat_installed|].
      split; [intros e' He'; by apply mountable_installed|].
      split; [apply elem_of_installed; [done | by left]|].
      by apply hostReady_installed. }
  assert (contains (document s1) e p = false) as Hfree.
  { destruct (Hm1 e Hm) as (_ & Hroot1 & Hbody1).
    apply contains_false. intros H.
    apply ancestorOrSelf_inv in H as [-> | (q & Hq & H)]; [by eapply Hroot1|].
    destruct (Hflat1 _ _ Hin) as [Hpb _]. apply Hpb in Hq as ->.
    by apply (not_ancestor_body s1 e). }
  exists p, s1. split; [done|].
  split; [by eapply addToPortal_run|].
  split; [done|]. split; [done|]. split; [by apply Hm1|].
  split; [done|]. split; [done|]. split; done.
Qed.

End FlatProperties.

Section FlatTheorems.
Import Placement Dom JsObject PortalManager Sample Usage.
Implicit Types (s : State) (d : Document) (id : string) (e p q n : node).

Lemma removeFromPortal_shape s e :
  removeFromPortal e s = Return false s \/
  exists id, removeFromPortal e s = Return true (removed e id s).
Proof.
  unfold removeFromPortal.
  do 2 erewrite bind_Return by apply gets_run.
  destruct (findPortal (document s) (portals s) e) as [[id p]|];
    [|by left].
  destruct (decide (parentNode (document s) e = Some p)); [|by left].
  right. exists id. by (erewrite bind_Return by (by apply removeChild_run)).
Qed.

(** [getPortal] keeps the registry flat and the mountable elements
    mountable, whether it returns or throws. *)
Lemma getPortal_flat_any s i z :
  wf s -> flat s ->
  flat (stateOf (getPortal i z s)) /\
  (forall e', mountable s e' -> mountable (stateOf (getPortal i z s)) e').
Proof.
  intros Hwf Hflat.
  destruct (getPortal_outcome s i z (wf_document _ Hwf))
    as [(v & E & ->) | [(E & _ & ->) | (E & _ & ->)]]; cbn [stateOf].
  - done.
  - split; [by apply flat_installed|].
    intros e' He'. by apply mountable_installed.
  - split; [by apply flat_abandoned|].
    intros e' He'. by apply mountable_abandoned.
Qed.

Lemma getPortal_flat s i z v s1 :
  wf s -> flat s -> getPortal i z s = Return v s1 ->
  flat s1 /\ (forall e', mountable s e' -> mountable s1 e').
Proof.
  intros Hwf Hflat Hget.
  pose proof (getPortal_flat_any s i z Hwf Hflat) as H.
  by rewrite Hget in H.
Qed.

Lemma flat_positioned s e xy :
  flat s -> flat (mapDocument (positioned e xy) s).
Proof. intros Hflat id p Hin. exact (Hflat id p Hin). Qed.

Lemma mountable_positioned s e xy e' :
  mountable s e' -> mountable (mapDocument (positioned e xy) s) e'.
Proof. intros Hm. exact Hm. Qed.

Lemma ancestorOrSelf_detachAll entries d p x :
  ancestorOrSelf (parentOf (detachAll entries d)) p x ->
  ancestorOrSelf (parentOf d) p x.
Proof.
  revert d. induction entries as [|[id r] rest IH]; intros d H; [done|].
  rewrite detachAll_cons in H. apply IH in H.
  rewrite parentOf_detach in H. by apply ancestorOrSelf_delete in H.
Qed.

Lemma addToPortal_flat_any s e pid e' :
  wf s -> flat s -> mountable s e ->
  flat (stateOf (addToPortal e pid s)) /\
  (mountable s e' -> mountable (stateOf (addToPortal e pid s)) e').
Proof.
  intros Hwf Hflat Hm.
  destruct (addToPortal_outcome s e pid Hwf)
    as [(v & s1 & Hget & Hwf1 & Hprop & Hcases) | (_ & _ & _ & ->)];
    cycle 1.
  { cbn [stateOf]. split; [by apply flat_abandoned|].
    intros He'. by apply mountable_abandoned. }
  destruct (getPortal_flat _ _ _ _ _ Hwf Hflat Hget) as [Hflat1 Hm1].
  destruct v as [p|name].
  - destruct Hcases as [[_ ->] | [_ ->]]; cbn [stateOf].
    + split; [done | apply Hm1].
    + destruct (flat_attached s1 e p (default "main"%string pid) e' Hwf1
                  Hflat1 (Hm1 e Hm)) as [? Hm2].
      split; [done|]. intros He'. by apply Hm2, Hm1.
  - rewrite Hcases. cbn [stateOf]. split; [done | apply Hm1].
Qed.

(** Every call with a mountable element keeps the registry flat and the
    mountable elements mountable. *)
Lemma perform_flat s c e' :
  wf s -> flat s -> plain c s ->
  flat (perform c s) /\ (mountable s e' -> mountable (perform c s) e').
Proof.
  intros Hwf Hflat Hplain.
  destruct c as [i z|e pid|e|e r o|]; cbn [perform plain] in *.
  - destruct (getPortal_flat_any s i z Hwf Hflat) as [? Hm].
    split; [done | apply Hm].
  - by apply addToPortal_flat_any.
  - destruct (removeFromPortal_shape s e) as [-> | [id ->]];
      cbn [stateOf]; [done|]. by apply flat_removed.
  - rewrite positionElement_run.
    destruct (addToPortal_flat_any
                (mapDocument
                   (positioned e
                      (translation (default "bottom"%string (placement o))
                         (boundingClientRect (layout s (document s)) r)
                         (offsetSize (layout s (document s)) e)
                         (default 5%Q (margin o))
                         (window (layout s (document s))))) s)
                e (Some (default "main"%string (portalId o))) e')
      as [? Hm];
      [by apply wf_mapDocument_positioned | by apply flat_positioned
      | by apply mountable_positioned |].
    split; [done|]. intros He'. by apply Hm, mountable_positioned.
  - rewrite destroy_run. cbn [stateOf]. split.
    + intros id p Hin. by apply elem_of_nil in Hin.
    + intros (He' & _ & Hbody). split; [|split].
      * cbn [document]. by rewrite nextNode_detachAll.
      * intros id p Hin. by apply elem_of_nil in Hin.
      * apply contains_false. cbn [document]. intros H.
        apply ancestorOrSelf_detachAll in H.
        by apply (not_ancestor_body s e').
Qed.

End FlatTheorems.

Section FlatClaims.
Import Placement Dom JsObject PortalManager Sample Usage.
Implicit Types (s : State) (d : Document) (id : string) (e p q n : node).

Lemma flat_construct d l : wfDocument d -> flat (stateOf (construct d l)).
Proof.
  intros Hd. rewrite construct_run by done. cbn [stateOf].
  apply flat_installed; [apply wf_initial, Hd | | done].
  intros id p Hin. by apply elem_of_nil in Hin.
Qed.

Lemma flat_fresh : flat fresh.
Proof. apply (flat_construct page engine), wfDocument_page. Qed.

Lemma mountable_fresh_tooltip : mountable fresh tooltip.
Proof.
  split; [vm_compute; lia|]. split; [|vm_compute; reflexivity].
  intros id p Hin.
  assert (portals fresh = [("main"%string, 7)]) as Hp
    by (vm_compute; reflexivity).
  rewrite Hp in Hin. apply list_elem_of_singleton in Hin.
  injection Hin as _ ->. unfold tooltip. discriminate.
Qed.


(** X10.  As long as the elements handed to [addToPortal] and
    [positionElement] are mountable (created, not portals, not containing
    the body), the registry stays flat: after the constructor and after
    every call, each registered portal is a child of the body or has no
    parent, and none contains the body; and elements that were mountable
    before a call are mountable after it. *)
Theorem flat_invariant :
  (forall d l, wfDocument d -> flat (stateOf (construct d l))) /\
  (forall s c,
     wf s -> flat s -> plain c s ->
     flat (perform c s) /\
     forall e, mountable s e -> mountable (perform c s) e).
Proof.
  split; [apply flat_construct|].
  intros s c Hwf Hflat Hplain.
  split; [by apply (perform_flat s c 0)|].
  intros e. by apply perform_flat.
Qed.

Lemma flat_invariant_witness :
  flat (perform (AddToPortal tooltip (Some "tooltips"%string)) fresh) /\
  mountable (perform (AddToPortal tooltip (Some "tooltips"%string)) fresh)
    tooltip.
Proof.
  destruct (proj2 flat_invariant fresh
              (AddToPortal tooltip (Some "tooltips"%string))
              wf_fresh flat_fresh mountable_fresh_tooltip) as [Hflat Hm].
  split; [exact Hflat | exact (Hm tooltip mountable_fresh_tooltip)].
Defined.

(** X11.  In a flat registry, while [document.head] and [document.body] are
    present, for every identifier that is not a member of
    [Object.prototype] and every mountable element: [addToPortal] returns
    the element and makes it a child of the portal registered under the
    identifier, creating the portal if need be; [removeFromPortal] then
    returns [true], emits [elementRemoved] with that identifier and leaves
    the element without a parent; a second [removeFromPortal] returns
    [false]; and the registry is flat and the element mountable again. *)
Theorem mount_then_remove s e pid :
  wf s -> flat s -> mountable s e -> hostReady (document s) ->
  inherited (default "main"%string pid) = false ->
  exists p s1 s2,
    addToPortal e pid s = Return e s1 /\
    (default "main"%string pid, p) ∈ portals s1 /\
    parentNode (document s1) e = Some p /\
    removeFromPortal e s1 = Return true s2 /\
    emitted s2 =
      emitted s1 ++ [ElementRemoved e (default "main"%string pid)] /\
    parentNode (document s2) e = None /\
    removeFromPortal e s2 = Return false s2 /\
    wf s2 /\ flat s2 /\ mountable s2 e.
Proof.
  intros Hwf Hflat Hm Hready Hown.
  destruct (addToPortal_flat s e pid Hwf Hflat Hm Hready Hown)
    as (p & s0 & Hget & Hadd & Hwf0 & Hflat0 & Hm0 & _ & Hin & Hfree & _).
  set (id := default "main"%string pid) in *.
  set (s1 := attached e p id s0) in *.
  destruct Hm0 as (He0 & Hroot0 & Hbody0).
  assert (wf s1) as Hwf1 by (by eapply wf_attached).
  destruct (flat_attached s0 e p id e Hwf0 Hflat0 (conj He0 (conj Hroot0 Hbody0)))
    as [Hflat1 Hm1].
  specialize (Hm1 (conj He0 (conj Hroot0 Hbody0))).
  assert (parentNode (document s1) e = Some p) as Hpar.
  { unfold parentNode, s1. by rewrite parentOf_attached, lookup_insert_eq. }
  assert (removeFromPortal e s1 = Return true (removed e id s1)) as Hrem.
  { apply (removeFromPortal_found _ _ _ p); [|done].
    apply findPortal_flat; first [done | apply Hm1]. }
  assert (parentNode (document (removed e id s1)) e = None) as Hgone.
  { unfold parentNode, removed. cbn [document].
    by rewrite parentOf_detach, lookup_delete_eq. }
  exists p, s1, (removed e id s1).
  split; [done|]. split; [done|]. split; [done|]. split; [done|].
  split; [done|]. split; [done|].
  split.
  { apply removeFromPortal_not_child. intros id' p' _. by rewrite Hgone. }
  split; [by apply wf_removed|].
  destruct (flat_removed s1 e id e Hwf1 Hflat1) as [? Hm2].
  split; [done | by apply Hm2].
Qed.

Lemma mount_then_remove_witness :
  exists p s1 s2,
    addToPortal tooltip (Some "tooltips"%string) fresh = Return tooltip s1 /\
    ("tooltips"%string, p) ∈ portals s1 /\
    removeFromPortal tooltip s1 = Return true s2 /\
    emitted s2 = emitted s1 ++ [ElementRemoved tooltip "tooltips"] /\
    removeFromPortal tooltip s2 = Return false s2.
Proof.
  assert (hostReady (document fresh)) as Hready
    by (split; vm_compute; reflexivity).
  destruct (mount_then_remove fresh tooltip (Some "tooltips"%string)
              wf_fresh flat_fresh mountable_fresh_tooltip Hready eq_refl)
    as (p & s1 & s2 & H1 & H2 & _ & H4 & H5 & _ & H7 & _).
  exists p, s1, s2.
  split; [exact H1|]. split; [exact H2|]. split; [exact H4|].
  split; [exact H5 | exact H7].
Defined.



End FlatClaims.

(** ** Portals stay where they were created *)

Section OrdinaryUse.
Import Placement Dom JsObject PortalManager Sample Usage.
Implicit Types (s : State) (d : Document) (id : string) (e p q n r : node).

Lemma moored_getPortal s i z :
  wf s -> moored s -> moored (stateOf (getPortal i z s)).
Proof.
  intros Hwf Hmoored. pose proof (wf_document _ Hwf) as Hd.
  destruct (getPortal_outcome s i z Hd)
    as [(v & E & ->) | [(E & _ & ->) | (E & _ & ->)]]; cbn [stateOf].
  - done.
  - intros id p Hin. unfold installed, parentNode. cbn [document].
    apply elem_of_installed in Hin as [[= -> ->] | Hin]; [| |done].
    + by rewrite parentOf_installPortal, lookup_insert_eq.
    + rewrite parentOf_installPortal_old; [exact (Hmoored _ _ Hin)|].
      by apply (wf_portal _ Hwf) in Hin as [? _].
  - intros id p Hin. unfold abandoned in *.
    cbn [document portals mapDocument] in *.
    rewrite parentNode_abandonPortal; [exact (Hmoored _ _ Hin)|].
    apply (wf_portal _ Hwf) in Hin as [? _]. lia.
Qed.

(** Every entry of the registry after [getPortal] was there before or is the
    node the call created. *)
Lemma getPortal_entries s i z id p :
  wf s -> (id, p) ∈ portals (stateOf (getPortal i z s)) ->
  (id, p) ∈ portals s \/ p = nextNode (document s).
Proof.
  intros Hwf. pose proof (wf_document _ Hwf) as Hd.
  destruct (getPortal_outcome s i z Hd)
    as [(v & E & ->) | [(E & _ & ->) | (E & _ & ->)]]; cbn [stateOf];
    [by left | | by left].
  intros Hin. apply elem_of_installed in Hin as [[= -> ->] | Hin]; [| |done].
  - by right.
  - by left.
Qed.

Lemma getPortal_keeps_entry s i z id p :
  wf s -> (id, p) ∈ portals s -> (id, p) ∈ portals (stateOf (getPortal i z s)).
Proof.
  intros Hwf Hin. pose proof (wf_document _ Hwf) as Hd.
  destruct (getPortal_outcome s i z Hd)
    as [(v & E & ->) | [(E & _ & ->) | (E & _ & ->)]]; cbn [stateOf];
    [done | | done].
  apply elem_of_installed; [done | by right].
Qed.

(** The registry after [addToPortal] is the registry after its
    [getPortal]. *)
Lemma addToPortal_portals s e pid :
  wf s ->
  portals (stateOf (addToPortal e pid s)) =
    portals (stateOf (getPortal (Some (default "main"%string pid)) None s)).
Proof.
  intros Hwf.
  destruct (addToPortal_outcome s e pid Hwf)
    as [(v & s1 & Hget & _ & _ & Hcases) | (_ & _ & -> & ->)]; [|done].
  rewrite Hget. cbn [stateOf]. destruct v as [p|name].
  - by destruct Hcases as [[_ ->] | [_ ->]].
  - by rewrite Hcases.
Qed.

Lemma moored_addToPortal s e pid :
  wf s -> moored s ->
  e < nextNode (document s) ->
  (forall id p, (id, p) ∈ portals s -> p <> e) ->
  moored (stateOf (addToPortal e pid s)).
Proof.
  intros Hwf Hmoored He Hroot.
  pose proof (moored_getPortal s (Some (default "main"%string pid)) None
                Hwf Hmoored) as Hmoored1.
  destruct (addToPortal_outcome s e pid Hwf)
    as [(v & s1 & Hget & _ & _ & Hcases) | (_ & _ & Hget & ->)];
    rewrite Hget in Hmoored1; cbn [stateOf] in Hmoored1; [|done].
  destruct v as [p|name]; [|by rewrite Hcases].
  destruct Hcases as [[_ ->] | [_ ->]]; cbn [stateOf]; [done|].
  intros id r Hin. unfold attached in Hin. cbn [portals] in Hin.
  unfold parentNode. rewrite parentOf_attached.
  rewrite lookup_insert_ne; [exact (Hmoored1 _ _ Hin)|].
  pose proof (getPortal_entries s (Some (default "main"%string pid)) None
                id r Hwf) as Hfrom.
  rewrite Hget in Hfrom. cbn [stateOf] in Hfrom.
  destruct (Hfrom Hin) as [Hold | ->]; [|lia].
  intros ->. by eapply Hroot.
Qed.

(** What [removeFromPortal] detaches is a child of a registered portal, so
    in a moored registry it is no portal. *)
Lemma moored_removeFromPortal s e :
  wf s -> moored s -> moored (stateOf (removeFromPortal e s)).
Proof.
  intros Hwf Hmoored. unfold removeFromPortal.
  do 2 erewrite bind_Return by apply gets_run.
  destruct (findPortal (document s) (portals s) e) as [[id p]|] eqn:Hfind;
    [|done].
  destruct (decide (parentNode (document s) e = Some p)) as [Hpar|]; [|done].
  erewrite bind_Return by (by apply removeChild_run). cbn [stateOf bind emit ret].
  apply findPortal_Some in Hfind as [Hin _].
  intros id' r Hr. cbn [portals mapDocument] in Hr.
  unfold parentNode. cbn [document mapDocument]. rewrite parentOf_detach.
  rewrite lookup_delete_ne; [exact (Hmoored _ _ Hr)|].
  intros ->. rewrite (Hmoored _ _ Hr) in Hpar. injection Hpar as <-.
  by apply (wf_portal _ Hwf) in Hin as (_ & [_ ?] & _).
Qed.

Lemma handsNoPortal_created c s : handsNoPortal c s -> created c s.
Proof. destruct c; cbn; tauto. Qed.

Lemma moored_perform s c :
  wf s -> moored s -> handsNoPortal c s -> moored (perform c s).
Proof.
  intros Hwf Hmoored Hc.
  destruct c as [i z|e pid|e|e r o|]; cbn [perform handsNoPortal] in *.
  - by apply moored_getPortal.
  - destruct Hc as [He Hroot]. by apply moored_addToPortal.
  - by apply moored_removeFromPortal.
  - destruct Hc as [He Hroot]. rewrite positionElement_run.
    apply moored_addToPortal; [by apply wf_mapDocument_positioned | done..].
  - rewrite destroy_run. intros id p Hin. by apply elem_of_nil in Hin.
Qed.

Lemma ordinary_moored s : ordinary s -> wf s /\ moored s.
Proof.
  induction 1 as [d l Hd|s c _ [Hwf Hmoored] Hc].
  - rewrite construct_run by done. cbn [stateOf].
    split; [by eapply wf_construct, construct_run|].
    intros id p Hin. unfold installed, parentNode. cbn [document].
    apply elem_of_installed in Hin as [[= -> ->] | Hin]; [| |done].
    + by rewrite parentOf_installPortal, lookup_insert_eq.
    + by apply elem_of_nil in Hin.
  - split; [|by apply moored_perform].
    apply wf_perform; [done | by apply handsNoPortal_created].
Qed.

(** Only [destroy] takes an entry out of the registry. *)
Lemma perform_keeps_entry s c id p :
  wf s -> c <> Destroy -> (id, p) ∈ portals s -> (id, p) ∈ portals (perform c s).
Proof.
  intros Hwf Hc Hin. destruct c as [i z|e pid|e|e r o|]; cbn [perform].
  - by apply getPortal_keeps_entry.
  - rewrite addToPortal_portals by done. by apply getPortal_keeps_entry.
  - by destruct (removeFromPortal_shape s e) as [-> | [id' ->]].
  - rewrite positionElement_run.
    rewrite addToPortal_portals by (by apply wf_mapDocument_positioned).
    by apply getPortal_keeps_entry; [apply wf_mapDocument_positioned|].
  - done.
Qed.

(** C10, amended.  As long as the manager is never handed one of its own
    portals as the element of [addToPortal] or [positionElement], every
    registered portal is a child of the body, and so no child of a
    registered portal; [removeFromPortal] of a registered portal returns
    [false] and changes nothing; and after any further such call other than
    [destroy] the portal is still registered and still a child of the
    body. *)
Theorem removeFromPortal_keeps_portal s id r :
  ordinary s ->
  (id, r) ∈ portals s ->
  parentNode (document s) r = Some body /\
  (forall id' p, (id', p) ∈ portals s -> parentNode (document s) r <> Some p) /\
  removeFromPortal r s = Return false s /\
  forall c,
    handsNoPortal c s -> c <> Destroy ->
    (id, r) ∈ portals (perform c s) /\
    parentNode (document (perform c s)) r = Some body.
Proof.
  intros Hord Hin. destruct (ordinary_moored s Hord) as [Hwf Hmoored].
  assert (forall id' p, (id', p) ∈ portals s ->
            parentNode (document s) r <> Some p) as Hnot.
  { intros id' p Hp. rewrite (Hmoored _ _ Hin). intros [= <-].
    by apply (wf_portal _ Hwf) in Hp as (_ & [_ ?] & _). }
  split; [exact (Hmoored _ _ Hin)|]. split; [done|].
  split; [by apply removeFromPortal_not_child|].
  intros c Hc Hne.
  assert ((id, r) ∈ portals (perform c s)) as Hin'
    by (by apply perform_keeps_entry).
  split; [done|].
  destruct (ordinary_moored (perform c s)) as [_ Hmoored'];
    [by apply ordinary_perform|].
  exact (Hmoored' _ _ Hin').
Qed.

Lemma removeFromPortal_keeps_portal_witness :
  parentNode (document fresh) 7 = Some body /\
  removeFromPortal 7 fresh = Return false fresh /\
  ("main"%string, 7) ∈
    portals (perform (AddToPortal tooltip (Some "tooltips"%string)) fresh) /\
  parentNode
    (document (perform (AddToPortal tooltip (Some "tooltips"%string)) fresh))
    7 = Some body.
Proof.
  assert (ordinary fresh) as Hord.
  { apply (ordinary_construct page engine).
    split; [apply wfTree_page | split; vm_compute; reflexivity]. }
  assert (("main"%string, 7) ∈ portals fresh) as Hin.
  { assert (portals fresh = [("main"%string, 7)]) as ->
      by (vm_compute; reflexivity).
    apply list_elem_of_here. }
  destruct (removeFromPortal_keeps_portal fresh "main" 7 Hord Hin)
    as (Hpar & _ & Hrem & Hnext).
  split; [exact Hpar|]. split; [exact Hrem|].
  apply (Hnext (AddToPortal tooltip (Some "tooltips"%string))).
  - split; [vm_compute; lia|]. intros id p Hp.
    assert (portals fresh = [("main"%string, 7)]) as Heq
      by (vm_compute; reflexivity).
    rewrite Heq in Hp. apply list_elem_of_singleton in Hp.
    injection Hp as _ ->. unfold tooltip. discriminate.
  - discriminate.
Defined.

End OrdinaryUse.

(** ** Styles, teardown and the history of the registry *)

Section LifecycleProperties.
Import Placement Dom JsObject PortalManager Sample Usage.
Implicit Types (s : State) (d : Document) (id : string) (e p q n : node).

Lemma element_positioned d e xy :
  element (positioned e xy d) e =
    setTransform xy (setLeft "0" (setTop "0" (setPosition "absolute"
      (element d e)))).
Proof. unfold positioned. by rewrite !element_updateElement. Qed.

(** X13.  [positionElement] writes the element's style before it attaches
    the element, so the style is written whether the call returns or throws:
    afterwards [position] is "absolute", [top] and [left] are "0" and the
    transform holds the clamped coordinates computed from the measurements
    taken at the start of the call; the element's other declarations, apart
    from [pointer-events], are untouched. *)
Theorem positionElement_writes_style s e r o :
  wf s ->
  e < nextNode (document s) ->
  let before := style (element (document s) e) in
  let after := style (element (document (stateOf (positionElement e r o s))) e) in
  position after = Some "absolute"%string /\
  styleTop after = Some "0"%string /\
  styleLeft after = Some "0"%string /\
  transform after =
    Some (translation (default "bottom"%string (placement o))
            (boundingClientRect (layout s (document s)) r)
            (offsetSize (layout s (document s)) e)
            (default 5%Q (margin o))
            (window (layout s (document s)))) /\
  styleWidth after = styleWidth before /\
  styleHeight after = styleHeight before /\
  overflow after = overflow before /\
  zIndex after = zIndex before.
Proof.
  intros Hwf He. cbv zeta. rewrite positionElement_run.
  set (xy := translation _ _ _ _ _).
  set (s0 := mapDocument (positioned e xy) s).
  assert (wf s0) as Hwf0 by (by apply wf_mapDocument_positioned).
  assert (element (document s0) e =
          setTransform xy (setLeft "0" (setTop "0" (setPosition "absolute"
            (element (document s) e))))) as Hel0
    by apply element_positioned.
  assert (element (document (stateOf (addToPortal e
            (Some (default "main"%string (portalId o))) s0))) e =
          element (document s0) e \/
          element (document (stateOf (addToPortal e
            (Some (default "main"%string (portalId o))) s0))) e =
          setPointerEvents "auto" (element (document s0) e)) as [-> | ->].
  { destruct (addToPortal_outcome s0 e
                (Some (default "main"%string (portalId o))) Hwf0)
      as [(v & s1 & Hget & Hwf1 & Hprop & Hcases) | (_ & _ & _ & ->)].
    - destruct (getPortal_old_node _ _ _ _ _ e Hwf0 Hget He) as [_ Hel].
      destruct v as [p|name].
      + destruct Hcases as [[_ ->] | [_ ->]]; cbn [stateOf].
        * by left.
        * right. by rewrite element_attached, Hel.
      + rewrite Hcases. cbn [stateOf]. by left.
    - left. cbn [stateOf]. unfold abandoned. cbn [document mapDocument].
      by apply element_abandonPortal. }
  - rewrite Hel0. repeat split.
  - rewrite Hel0. repeat split.
Qed.

Lemma positionElement_writes_style_witness :
  position (style (element
    (document (stateOf (positionElement body button noOptions fresh))) body)) =
    Some "absolute"%string /\
  exists err s',
    positionElement body button noOptions fresh = Throw err s'.
Proof.
  assert (body < nextNode (document fresh)) as Hlt by (vm_compute; lia).
  split.
  - exact (proj1 (positionElement_writes_style fresh body button noOptions
                    wf_fresh Hlt)).
  - eexists _, _. vm_compute. reflexivity.
Defined.

(** X14.  [destroy] detaches the portals and nothing else: every node that
    is not a registered portal keeps its parent, so the elements mounted in a
    portal stay inside it, and every element keeps its data.  As the
    registry is empty afterwards, [removeFromPortal] returns [false] for
    every element, also for those that are still children of a portal
    node. *)
Theorem destroy_keeps_mounted_elements s e :
  (e ∉ (portals s).*2 ->
   parentNode (document (stateOf (destroy s))) e = parentNode (document s) e) /\
  element (document (stateOf (destroy s))) e = element (document s) e /\
  removeFromPortal e (stateOf (destroy s)) =
    Return false (stateOf (destroy s)).
Proof.
  rewrite destroy_run. cbn [stateOf document].
  split; [intros He; by apply parentOf_detachAll_other|].
  split; [unfold element; by rewrite elementOf_detachAll|].
  apply removeFromPortal_not_child. intros id p Hin.
  by apply elem_of_nil in Hin.
Qed.

Lemma destroy_keeps_mounted_elements_witness :
  parentNode (document (stateOf (destroy mounted))) tooltip = Some 7 /\
  removeFromPortal tooltip (stateOf (destroy mounted)) =
    Return false (stateOf (destroy mounted)).
Proof.
  destruct (destroy_keeps_mounted_elements mounted tooltip) as (Hpar & _ & Hrem).
  split; [|exact Hrem].
  rewrite Hpar; [vm_compute; reflexivity|].
  assert ((portals mounted).*2 = [7]) as -> by (vm_compute; reflexivity).
  apply not_elem_of_cons. split; [unfold tooltip; lia | apply not_elem_of_nil].
Defined.




(** X16.  While [document.head] and [document.body] are present, a portal
    that [addToPortal] has to create gets the z-index 9999, in its inline
    style and in its style rule, because [addToPortal] calls [getPortal]
    without a z-index; this holds also when the call then throws.  A later
    [getPortal] with another z-index returns the same portal and changes
    nothing. *)
Theorem addToPortal_creates_with_default_zIndex s e id z :
  wf s ->
  hostReady (document s) ->
  e < nextNode (document s) ->
  getProperty (portals s) id = None ->
  exists p,
    (id, p) ∈ portals (stateOf (addToPortal e (Some id) s)) /\
    zIndex (style (element
      (document (stateOf (addToPortal e (Some id) s))) p)) = Some 9999%Z /\
    textContent (element
      (document (stateOf (addToPortal e (Some id) s))) (S p)) =
      Some (portalRule id 9999) /\
    getPortal (Some id) (Some z) (stateOf (addToPortal e (Some id) s)) =
      Return (VElement p) (stateOf (addToPortal e (Some id) s)).
Proof.
  intros Hwf Hready He Hnone. pose proof (wf_document _ Hwf) as Hd.
  destruct (addToPortal_outcome s e (Some id) Hwf)
    as [(v & s1 & Hget & Hwf1 & Hprop & Hcases) | (_ & Hnot & _)]; [|done].
  cbn [default] in *.
  rewrite getPortal_new in Hget by done. injection Hget as <- <-.
  set (p := nextNode (document s)) in *.
  set (s1 := installed id 9999 s) in *.
  assert ((id, p) ∈ portals s1) as Hin by (by apply getProperty_VElement).
  assert (zIndex (style (element (document s1) p)) = Some 9999%Z) as Hz.
  { unfold s1, installed, p. cbn [document].
    by rewrite element_installPortal_portal. }
  assert (textContent (element (document s1) (S p)) =
          Some (portalRule id 9999)) as Hrule.
  { unfold s1, installed, p. cbn [document].
    by rewrite element_installPortal_style. }
  exists p.
  destruct Hcases as [[_ ->] | [_ ->]]; cbn [stateOf].
  - split; [done|]. split; [done|]. split; [done|].
    by apply getPortal_existing.
  - unfold attached at 1 2 3. cbn [document portals].
    split; [done|].
    rewrite !element_updateElement_ne by (unfold p; lia).
    autorewrite with dom.
    split; [done|]. split; [done|].
    by apply getPortal_existing.
Qed.

Lemma addToPortal_creates_with_default_zIndex_witness :
  exists p,
    ("tooltips"%string, p) ∈ portals tipped /\
    zIndex (style (element (document tipped) p)) = Some 9999%Z /\
    getPortal (Some "tooltips"%string) (Some 10000%Z) tipped =
      Return (VElement p) tipped.
Proof.
  assert (hostReady (document fresh)) as Hready
    by (split; vm_compute; reflexivity).
  assert (tooltip < nextNode (document fresh)) as Hlt by (vm_compute; lia).
  destruct (addToPortal_creates_with_default_zIndex fresh tooltip "tooltips"
              10000%Z wf_fresh Hready Hlt eq_refl) as (p & H1 & H2 & _ & H4).
  exists p. split; [exact H1|]. split; [exact H2 | exact H4].
Defined.

End LifecycleProperties.

(** ** What holds in every state a page can reach *)

Section ReachableProperties.
Import Placement Dom JsObject PortalManager Sample Usage.
Implicit Types (s : State) (d : Document) (id : string) (e p q n : node).

Lemma announcedIn_refl s : announcedIn s s.
Proof. split; [done | by left]. Qed.

Lemma announcedIn_trans s1 s2 s3 :
  announcedIn s1 s2 -> announcedIn s2 s3 -> announcedIn s1 s3.
Proof.
  intros [He12 Hp12] [He23 Hp23]. split; [by auto|].
  intros id p Hin. apply Hp23 in Hin as [Hin | Hnew]; [|by right].
  apply Hp12 in Hin as [Hin | [Hown Hev]]; [by left|].
  right. split; [done | by apply He23].
Qed.

Lemma announcedIn_getPortal_any s i z :
  wf s -> announcedIn s (stateOf (getPortal i z s)).
Proof.
  intros Hwf.
  destruct (getPortal_outcome s i z (wf_document _ Hwf))
    as [(v & E & ->) | [(E & _ & ->) | (E & _ & ->)]]; cbn [stateOf].
  - apply announcedIn_refl.
  - split.
    + intros ev Hev. unfold installed. cbn [emitted].
      apply elem_of_app. by left.
    + intros id p Hin. apply elem_of_installed in Hin as [[= -> ->] | Hin];
        [|by left | done].
      right. apply getProperty_None in E as [_ E]. split; [done|].
      unfold installed. cbn [emitted]. apply elem_of_app. right.
      apply list_elem_of_here.
  - split; [done | by left].
Qed.

Lemma announcedIn_getPortal s i z v s1 :
  wf s -> getPortal i z s = Return v s1 -> announcedIn s s1.
Proof.
  intros Hwf Hget. pose proof (announcedIn_getPortal_any s i z Hwf) as H.
  by rewrite Hget in H.
Qed.

Lemma announcedIn_event s s' ev :
  portals s' = portals s -> emitted s' = emitted s ++ [ev] ->
  announcedIn s s'.
Proof.
  intros Hp He. split.
  - intros ev' Hev. rewrite He. apply elem_of_app. by left.
  - intros id p Hin. left. by rewrite <- Hp.
Qed.

Lemma announcedIn_addToPortal s e pid :
  wf s -> announcedIn s (stateOf (addToPortal e pid s)).
Proof.
  intros Hwf.
  destruct (addToPortal_outcome s e pid Hwf)
    as [(v & s1 & Hget & Hwf1 & Hprop & Hcases) | (_ & _ & _ & ->)];
    [|by split; [|left]].
  pose proof (announcedIn_getPortal _ _ _ _ _ Hwf Hget) as H1.
  destruct v as [p|name].
  - destruct Hcases as [[_ ->] | [_ ->]]; cbn [stateOf]; [done|].
    eapply announcedIn_trans; [exact H1|].
    by eapply announcedIn_event.
  - by rewrite Hcases.
Qed.

Lemma announcedIn_perform s c : wf s -> announcedIn s (perform c s).
Proof.
  intros Hwf. destruct c as [i z|e pid|e|e r o|]; cbn [perform].
  - by apply announcedIn_getPortal_any.
  - by apply announcedIn_addToPortal.
  - destruct (removeFromPortal_shape s e) as [-> | [id ->]];
      cbn [stateOf]; [apply announcedIn_refl|].
    by eapply announcedIn_event.
  - rewrite positionElement_run.
    apply (announcedIn_addToPortal (mapDocument _ s)).
    by apply wf_mapDocument_positioned.
  - rewrite destroy_run. split; [done|].
    intros id p Hin. by apply elem_of_nil in Hin.
Qed.

Lemma reachable_announced s :
  reachable s ->
  forall id p,
    (id, p) ∈ portals s ->
    inherited id = false /\ PortalCreated id p ∈ emitted s.
Proof.
  induction 1 as [d l Hd|s c Hreach IH Hc]; intros id p Hin.
  - rewrite construct_run in * by done. cbn [stateOf] in *.
    apply elem_of_installed in Hin as [[= -> ->] | Hin]; [| |done].
    + split; [done|]. unfold installed. cbn. apply list_elem_of_here.
    + by apply elem_of_nil in Hin.
  - destruct (announcedIn_perform s c (reachable_wf _ Hreach)) as [Hev Hp].
    apply Hp in Hin as [Hin | Hnew]; [|done].
    destruct (IH _ _ Hin). split; [done | by apply Hev].
Qed.

Lemma reachable_fresh : reachable fresh.
Proof. apply (reachable_construct page engine), wfDocument_page. Qed.

(** X17.  In every state reached from the constructor through the public
    methods: no identifier and no node is registered twice; every
    registered portal is a created node other than the document's head and
    body and is not a child of the head; the tree has no cycle, and
    [contains] decides the ancestor relation. *)
Theorem reachable_registry_invariant s :
  reachable s ->
  NoDup (portals s).*1 /\
  NoDup (portals s).*2 /\
  (forall id p,
     (id, p) ∈ portals s ->
     p < nextNode (document s) /\ p <> head /\ p <> body /\
     parentNode (document s) p <> Some head) /\
  acyclic (parentOf (document s)) /\
  (forall p x,
     contains (document s) p x = true <->
     ancestorOrSelf (parentOf (document s)) p x).
Proof.
  intros Hreach. pose proof (reachable_wf _ Hreach) as Hwf.
  split; [apply Hwf|]. split; [apply Hwf|].
  split.
  { intros id p Hin. apply (wf_portal _ Hwf) in Hin as (? & [? ?] & ?).
    by repeat split. }
  split; [apply Hwf|].
  intros p x. apply contains_exact, Hwf.
Qed.

Lemma reachable_registry_invariant_witness :
  NoDup (portals (perform (AddToPortal tooltip (Some "tooltips"%string)) fresh)).*1 /\
  acyclic (parentOf (document
    (perform (AddToPortal tooltip (Some "tooltips"%string)) fresh))).
Proof.
  assert (reachable (perform (AddToPortal tooltip (Some "tooltips"%string))
                       fresh)) as Hreach.
  { apply reachable_perform; [apply reachable_fresh|]. vm_compute. lia. }
  destruct (reachable_registry_invariant _ Hreach) as (H1 & _ & _ & H4 & _).
  split; [exact H1 | exact H4].
Defined.

(** X18.  In every reachable state, every registered portal has been
    announced by a [portalCreated] signal that carries its identifier and its
    node; its identifier is not the name of a member of [Object.prototype];
    and [getPortal] with that identifier, whatever the z-index, returns the
    portal and leaves the state as it is. *)
Theorem registered_portal_announced s id p :
  reachable s ->
  (id, p) ∈ portals s ->
  PortalCreated id p ∈ emitted s /\
  inherited id = false /\
  forall z, getPortal (Some id) z s = Return (VElement p) s.
Proof.
  intros Hreach Hin.
  destruct (reachable_announced s Hreach id p Hin) as [Hown Hev].
  split; [done|]. split; [done|].
  intros z. apply getPortal_existing. cbn [default].
  apply getProperty_own, ownProperty_elem_of; [|done].
  apply (reachable_wf _ Hreach).
Qed.

Lemma registered_portal_announced_witness :
  PortalCreated "main" 7 ∈ emitted fresh /\
  getPortal (Some "main"%string) (Some 1%Z) fresh = Return (VElement 7) fresh.
Proof.
  assert (("main"%string, 7) ∈ portals fresh) as Hin.
  { assert (portals fresh = [("main"%string, 7)]) as ->
      by (vm_compute; reflexivity).
    apply list_elem_of_here. }
  destruct (registered_portal_announced fresh "main" 7 reachable_fresh Hin)
    as (Hev & _ & Hget).
  split; [exact Hev | exact (Hget (Some 1%Z))].
Defined.

End ReachableProperties.

(** ** [positionElement] in ordinary use *)

Section PositionProperties.
Import Placement Dom JsObject PortalManager Sample Usage.
Implicit Types (s : State) (d : Document) (id : string) (e p q n : node).

(** X19.  In a flat registry, while [document.head] and [document.body] are
    present, [positionElement] of a mountable element, with an identifier
    that is not a member of [Object.prototype], returns the element: the element is then a child of the portal
    registered under the identifier, its transform holds the clamped
    coordinates, its [pointer-events] is "auto", and the last signal emitted
    is [elementAdded] for the element and the identifier. *)
Theorem positionElement_mounts s e r o :
  wf s -> flat s -> mountable s e -> hostReady (document s) ->
  inherited (default "main"%string (portalId o)) = false ->
  exists p s',
    positionElement e r o s = Return e s' /\
    (default "main"%string (portalId o), p) ∈ portals s' /\
    parentNode (document s') e = Some p /\
    transform (style (element (document s') e)) =
      Some (translation (default "bottom"%string (placement o))
              (boundingClientRect (layout s (document s)) r)
              (offsetSize (layout s (document s)) e)
              (default 5%Q (margin o))
              (window (layout s (document s)))) /\
    pointerEvents (style (element (document s') e)) = Some "auto"%string /\
    last (emitted s') =
      Some (ElementAdded e (default "main"%string (portalId o))).
Proof.
  intros Hwf Hflat Hm Hready Hown. rewrite positionElement_run.
  set (xy := translation _ _ _ _ _).
  set (s0 := mapDocument (positioned e xy) s).
  assert (wf s0) as Hwf0 by (by apply wf_mapDocument_positioned).
  destruct (addToPortal_flat s0 e (Some (default "main"%string (portalId o)))
              Hwf0 (flat_positioned s e xy Hflat)
              (mountable_positioned s e xy e Hm) Hready Hown)
    as (p & s1 & Hget & Hadd & Hwf1 & Hflat1 & Hm1 & _ & Hin & Hfree & _).
  cbn [default] in *.
  destruct (getPortal_old_node _ _ _ _ _ e Hwf0 Hget) as [_ Hel];
    [apply Hm|].
  eexists p, _. split; [exact Hadd|].
  split; [done|].
  unfold parentNode. rewrite parentOf_attached.
  split; [by rewrite lookup_insert_eq|].
  rewrite element_attached, Hel.
  unfold s0, mapDocument. cbn [document]. rewrite element_positioned.
  split; [done|]. split; [done|].
  unfold attached. cbn [emitted]. apply last_snoc.
Qed.

Lemma positionElement_mounts_witness :
  exists p s',
    positionElement tooltip button noOptions fresh = Return tooltip s' /\
    parentNode (document s') tooltip = Some p /\
    last (emitted s') = Some (ElementAdded tooltip "main").
Proof.
  assert (hostReady (document fresh)) as Hready
    by (split; vm_compute; reflexivity).
  destruct (positionElement_mounts fresh tooltip button noOptions
              wf_fresh flat_fresh mountable_fresh_tooltip Hready eq_refl)
    as (p & s' & H1 & _ & H3 & _ & _ & H6).
  exists p, s'. split; [exact H1|]. split; [exact H3 | exact H6].
Defined.

End PositionProperties.
